(** * The RARP responder of install-server/main.go

    A shallow embedding of the frame codec ([buildRarpReply],
    [parseIncomingRarp]), of the mapping table parser ([parseMapping]) and of
    the body of the server loop of [main], followed by the properties of the
    specification that concern them.

    Conventions of the embedding:
    - a Go [byte] is a [Byte.byte]; a [uint16] is a [Z] in [0, 2^16), with the
      wrap-around of a shift written out;
    - a slice or array of bytes is a [list byte]; a slice's capacity is taken
      to be its length, and the nil slice is the empty list;
    - a run-time panic (slice bounds, index out of range) is the [Panic]
      result of the [run] monad, so that a function of the embedding says
      where the Go function returns and where it would stop the process;
    - the map [map[[6]byte][4]byte] is a [gmap (list byte) (list byte)]. *)

From Stdlib Require Import ZArith Lia List.
From Stdlib Require Import Strings.String Strings.Ascii Strings.Byte.
From stdpp Require Import base option list gmap strings.

Import ListNotations.
Local Open Scope Z_scope.

(** ** Bytes and 16-bit words *)

#[global] Instance byte_eq_dec : EqDecision byte := Byte.byte_eq_dec.

#[global] Instance byte_countable : Countable byte :=
  inj_countable Byte.to_N Byte.of_N Byte.of_to_N.

(** [uint16(b)] for a byte [b]. *)
Definition u8 (b : byte) : Z := Z.of_N (Byte.to_N b).

(** [byte(v)]: the conversion keeps the low eight bits. *)
Definition to_byte (v : Z) : byte :=
  default x00 (Byte.of_N (Z.to_N (v mod 256))).

(** ** Panics *)

Inductive panic : Type :=
  | SliceBounds   (* slice bounds out of range *)
  | IndexRange.   (* index out of range *)

Inductive run (A : Type) : Type :=
  | Ret (a : A)
  | Panic (p : panic).

Arguments Ret {A} a.
Arguments Panic {A} p.

#[global] Instance run_ret : MRet run := @Ret.
#[global] Instance run_bind : MBind run := fun A B f m =>
  match m with
  | Ret a => f a
  | Panic p => Panic p
  end.

(** ** Slices *)

(** [s[lo:hi]]. *)
Definition slice (s : list byte) (lo hi : nat) : run (list byte) :=
  if decide (lo ≤ hi ∧ hi ≤ length s)%nat
  then Ret (take (hi - lo) (drop lo s))
  else Panic SliceBounds.

(** [s[i]]. *)
Definition index (s : list byte) (i : nat) : run byte :=
  match s !! i with
  | Some b => Ret b
  | None => Panic IndexRange
  end.

(** [s[i] = v]. *)
Definition store (s : list byte) (i : nat) (v : byte) : run (list byte) :=
  if decide (i < length s)%nat then Ret (<[i := v]> s) else Panic IndexRange.

(** The built-in [copy(dst, src)] on a whole array or slice [dst]: it copies
    [min(len(dst), len(src))] elements and leaves the rest of [dst]. *)
Definition copy (dst src : list byte) : list byte :=
  take (length dst) src ++ drop (length src) dst.

(** [copy(buf[lo:hi], src)]: the copy goes through the slice into [buf]. *)
Definition copy_to (buf : list byte) (lo hi : nat) (src : list byte)
  : run (list byte) :=
  window ← slice buf lo hi;
  Ret (take lo buf ++ copy window src ++ drop hi buf).

(** ** encoding/binary, big endian *)

Module BigEndian.

(** [binary.BigEndian.Uint16(b)]:
    [uint16(b[1]) | uint16(b[0])<<8], after a bounds check on [b[1]]. *)
Definition Uint16 (b : list byte) : run Z :=
  match b with
  | b0 :: b1 :: _ => Ret (Z.lor (u8 b1) (Z.shiftl (u8 b0) 8))
  | _ => Panic IndexRange
  end.

(** [binary.BigEndian.PutUint16(buf[lo:hi], v)]:
    [b[0] = byte(v >> 8); b[1] = byte(v)], after a bounds check on [b[1]];
    the two stores go through the slice into [buf]. *)
Definition PutUint16 (buf : list byte) (lo hi : nat) (v : Z)
  : run (list byte) :=
  window ← slice buf lo hi;
  match window with
  | _ :: _ :: _ =>
      Ret (<[S lo := to_byte v]> (<[lo := to_byte (Z.shiftr v 8)]> buf))
  | _ => Panic IndexRange
  end.

End BigEndian.

(** ** Constants and types of main.go *)

(** EtherType values *)
Definition ETH_P_RARP : Z := 0x8035.
Definition ETH_P_IP : Z := 0x0800.

(** ARP / RARP opcodes *)
Definition ARP_REQUEST : Z := 1.
Definition ARP_REPLY : Z := 2.
Definition RARP_REQUEST : Z := 3.
Definition RARP_REPLY : Z := 4.

(** Ethernet header: dst(6) | src(6) | ethertype(2). *)
Record EthHdr : Type := mkEthHdr {
  Dst : list byte;      (* [6]byte *)
  Src : list byte;      (* [6]byte *)
  Type_ : Z             (* uint16, the field Type of the source *)
}.

(** hrd(2) pro(2) hln(1) pln(1) op(2) sha(6) spa(4) tha(6) tpa(4) *)
Record RarpPacket : Type := mkRarpPacket {
  HType : Z;            (* uint16 *)
  PType : Z;            (* uint16 *)
  HLEN : byte;
  PLEN : byte;
  Oper : Z;             (* uint16 *)
  SHA : list byte;      (* [6]byte *)
  SPA : list byte;      (* [4]byte *)
  THA : list byte;      (* [6]byte *)
  TPA : list byte       (* [4]byte *)
}.

(** The zero values [var eth EthHdr] and [var pkt RarpPacket]. *)
Definition zero6 : list byte := replicate 6 x00.
Definition zero4 : list byte := replicate 4 x00.
Definition EthHdr_zero : EthHdr := mkEthHdr zero6 zero6 0.
Definition RarpPacket_zero : RarpPacket :=
  mkRarpPacket 0 0 x00 x00 0 zero6 zero4 zero6 zero4.

(** The errors the program builds with [fmt.Errorf], one constructor per
    format string, and the error of a failed system call. *)
Inductive error : Type :=
  | InvalidMappingEntry (p : string)   (* invalid mapping entry: %q (want mac=ipv4) *)
  | InvalidMacAddress (macStr : string) (* parse MAC %q: %w *)
  | InvalidIPv4Address (ipStr : string) (* parse IPv4 %q: invalid *)
  | FrameTooShort (n : nat)            (* frame too short: %d *)
  | WrongEthertype (ty : Z)            (* not RARP ethertype: 0x%04x *)
  | Errno (code : Z).                  (* a failed read or sendto *)

(** [func htons(i uint16) uint16 { return (i<<8)&0xff00 | i>>8 }] *)
Definition htons (i : Z) : Z :=
  Z.lor (Z.land (Z.shiftl i 8 mod 2 ^ 16) 0xff00) (Z.shiftr i 8).

(** ** net.IP.To4 *)

(** [ip.To4()]: a 4-byte [ip] itself, the last four bytes of a 16-byte
    IPv4-mapped address, nil ([None]) otherwise. *)
Definition To4 (ip : list byte) : option (list byte) :=
  if decide (length ip = 4%nat) then Some ip
  else if decide (length ip = 16%nat
                  ∧ take 10 ip = replicate 10 x00
                  ∧ ip !! 10%nat = Some xff
                  ∧ ip !! 11%nat = Some xff)
       then Some (take 4 (drop 12 ip))
       else None.

(** A nil slice sliced: [To4()[:4]] panics on nil. *)
Definition slice_opt (s : option (list byte)) (lo hi : nat) : run (list byte) :=
  slice (default [] s) lo hi.

(** ** The frame codec *)

(** [func macToArray(mac net.HardwareAddr) (out [6]byte)] *)
Definition macToArray (mac : list byte) : run (list byte) :=
  s ← slice mac 0 6;
  Ret (copy zero6 s).

(** [func ipToArray(ip net.IP) (out [4]byte)] *)
Definition ipToArray (ip : list byte) : run (list byte) :=
  s ← slice_opt (To4 ip) 0 4;
  Ret (copy zero4 s).

(** [func buildRarpReply(serverMAC, serverIP, targetMAC, targetIP)
    ([]byte, error)]; the error it returns is always nil. *)
Definition buildRarpReply (serverMAC serverIP targetMAC targetIP : list byte)
  : run (list byte * option error) :=
  let eth := EthHdr_zero in
  s ← slice targetMAC 0 6;
  let eth := mkEthHdr (copy (Dst eth) s) (Src eth) (Type_ eth) in
  s ← slice serverMAC 0 6;
  let eth := mkEthHdr (Dst eth) (copy (Src eth) s) (Type_ eth) in
  let eth := mkEthHdr (Dst eth) (Src eth) (htons ETH_P_RARP) in
  let pkt_HType := htons 1 in
  let pkt_PType := htons ETH_P_IP in
  let pkt_HLEN := x06 in
  let pkt_PLEN := x04 in
  let pkt_Oper := htons RARP_REPLY in
  pkt_SHA ← macToArray serverMAC;
  pkt_SPA ← ipToArray serverIP;
  pkt_THA ← macToArray targetMAC;
  pkt_TPA ← ipToArray targetIP;
  let pkt := mkRarpPacket pkt_HType pkt_PType pkt_HLEN pkt_PLEN pkt_Oper
                          pkt_SHA pkt_SPA pkt_THA pkt_TPA in
  let buf := replicate (14 + 28) x00 in
  buf ← BigEndian.PutUint16 buf 12 14 (Type_ eth);
  buf ← copy_to buf 0 6 (Dst eth);
  buf ← copy_to buf 6 12 (Src eth);
  let o := 14%nat in
  buf ← BigEndian.PutUint16 buf o (o + 2) (HType pkt); let o := (o + 2)%nat in
  buf ← BigEndian.PutUint16 buf o (o + 2) (PType pkt); let o := (o + 2)%nat in
  buf ← store buf o (HLEN pkt); let o := (o + 1)%nat in
  buf ← store buf o (PLEN pkt); let o := (o + 1)%nat in
  buf ← BigEndian.PutUint16 buf o (o + 2) (Oper pkt); let o := (o + 2)%nat in
  buf ← copy_to buf o (o + 6) (SHA pkt); let o := (o + 6)%nat in
  buf ← copy_to buf o (o + 4) (SPA pkt); let o := (o + 4)%nat in
  buf ← copy_to buf o (o + 6) (THA pkt); let o := (o + 6)%nat in
  buf ← copy_to buf o (o + 4) (TPA pkt);
  Ret (buf, None).

(** [func parseIncomingRarp(b []byte) (EthHdr, RarpPacket, error)] *)
Definition parseIncomingRarp (b : list byte)
  : run (EthHdr * RarpPacket * option error) :=
  let eth := EthHdr_zero in
  let pkt := RarpPacket_zero in
  if decide (length b < 14 + 28)%nat
  then Ret (eth, pkt, Some (FrameTooShort (length b)))
  else
    s ← slice b 0 6;
    let eth := mkEthHdr (copy (Dst eth) s) (Src eth) (Type_ eth) in
    s ← slice b 6 12;
    let eth := mkEthHdr (Dst eth) (copy (Src eth) s) (Type_ eth) in
    s ← slice b 12 14;
    ty ← BigEndian.Uint16 s;
    let eth := mkEthHdr (Dst eth) (Src eth) ty in
    if decide (Type_ eth ≠ htons ETH_P_RARP)
    then Ret (eth, pkt, Some (WrongEthertype (Type_ eth)))
    else
      let o := 14%nat in
      s ← slice b o (o + 2); hty ← BigEndian.Uint16 s; let o := (o + 2)%nat in
      s ← slice b o (o + 2); pty ← BigEndian.Uint16 s; let o := (o + 2)%nat in
      hlen ← index b o; let o := (o + 1)%nat in
      plen ← index b o; let o := (o + 1)%nat in
      s ← slice b o (o + 2); op ← BigEndian.Uint16 s; let o := (o + 2)%nat in
      s ← slice b o (o + 6); let sha := copy zero6 s in let o := (o + 6)%nat in
      s ← slice b o (o + 4); let spa := copy zero4 s in let o := (o + 4)%nat in
      s ← slice b o (o + 6); let tha := copy zero6 s in let o := (o + 6)%nat in
      s ← slice b o (o + 4); let tpa := copy zero4 s in
      Ret (eth, mkRarpPacket hty pty hlen plen op sha spa tha tpa, None).

(** ** The library functions of the mapping parser *)

(** [strings.Split(s, sep)] and [strings.SplitN(s, sep, n)] for a separator
    of one byte, the only kind the program uses. *)
Fixpoint Split (s : string) (sep : ascii) : list string :=
  match s with
  | EmptyString => [EmptyString]
  | String c s' =>
      if decide (c = sep) then EmptyString :: Split s' sep
      else match Split s' sep with
           | [] => [String c EmptyString]
           | h :: t => String c h :: t
           end
  end.

(** The text before and after the first [sep] of [s]. *)
Fixpoint cut (s : string) (sep : ascii) : option (string * string) :=
  match s with
  | EmptyString => None
  | String c s' =>
      if decide (c = sep) then Some (EmptyString, s')
      else '(a, b) ← cut s' sep; Some (String c a, b)
  end.

(** [n = 0] gives nil, and the last of [n] parts is the unsplit rest. *)
Fixpoint SplitN (s : string) (sep : ascii) (n : nat) : list string :=
  match n with
  | O => []
  | S O => [s]
  | S n' =>
      match cut s sep with
      | None => [s]
      | Some (a, rest) => a :: SplitN rest sep n'
      end
  end.

(** The functions of the Go standard library whose text formats the parser
    relies on. [ParseMAC] answers the address, or [None] where Go returns a
    non-nil error; [ParseIP] answers the address, the nil slice being []. *)
Class GoLib : Type := {
  TrimSpace : string → string;               (* strings.TrimSpace *)
  ParseMAC : string → option (list byte);    (* net.ParseMAC *)
  ParseIP : string → list byte               (* net.ParseIP *)
}.

(** ** The mapping table *)

Inductive result (A : Type) : Type :=
  | Ok (a : A)        (* (a, nil) *)
  | Err (e : error).  (* (nil, e) *)

Arguments Ok {A} a.
Arguments Err {A} e.

Abbreviation table := (gmap (list byte) (list byte)).

Section Mapping.

Context {L : GoLib}.

(** The body of the loop [for _, p := range pairs] of [parseMapping]:
    [Ok m'] where the body reaches its end or [continue]s with the map
    [m'], [Err e] where it returns the error [e]. *)
Definition parseMapping_body (p : string) (m : table) : run (result table) :=
  let p := TrimSpace p in
  if decide (p = EmptyString) then Ret (Ok m)
  else
    match SplitN p "=" 2 with
    | [kv0; kv1] =>
        let macStr := TrimSpace kv0 in
        let ipStr := TrimSpace kv1 in
        match ParseMAC macStr with
        | None => Ret (Err (InvalidMacAddress macStr))
        | Some mac =>
            match To4 (ParseIP ipStr) with
            | None => Ret (Err (InvalidIPv4Address ipStr))
            | Some ip =>
                s ← slice mac 0 6;
                let mac6 := copy zero6 s in
                s ← slice ip 0 4;
                let ip4 := copy zero4 s in
                Ret (Ok (<[mac6 := ip4]> m))
            end
        end
    | _ => (* len(kv) != 2 *) Ret (Err (InvalidMappingEntry p))
    end.

Fixpoint parseMapping_loop (pairs : list string) (m : table)
  : run (result table) :=
  match pairs with
  | [] => Ret (Ok m)
  | p :: pairs' =>
      r ← parseMapping_body p m;
      match r with
      | Ok m' => parseMapping_loop pairs' m'
      | Err e => Ret (Err e)
      end
  end.

(** [func parseMapping(s string) (map[[6]byte][4]byte, error)] *)
Definition parseMapping (s : string) : run (result table) :=
  let m : table := ∅ in
  if decide (s = EmptyString) then Ret (Ok m)
  else parseMapping_loop (Split s ",") m.

End Mapping.

(** ** The server loop *)

(** What [log.Printf] and [log.Fatalf] print in the loop. *)
Inductive logline : Type :=
  | LogFatalRead (e : error)            (* read: %v *)
  | LogSkipFrame (e : error)            (* skip frame: %v *)
  | LogIgnoreOpcode (op : Z)            (* ignore opcode %d *)
  | LogNoMapping (mac : list byte)      (* no mapping for ... *)
  | LogBuildReply (e : error)           (* build reply: %v *)
  | LogSendto (e : error)               (* sendto: %v *)
  | LogAnswered (mac ip : list byte).   (* answered RARP for ... -> ... *)

(** What one turn of the loop does, in order: lines logged, the map read at
    a key ([macToIP[targetMAC]]), frames handed to [unix.Sendto]. *)
Inductive event : Type :=
  | EvLog (l : logline)
  | EvLookup (mac : list byte)
  | EvSendto (frame : list byte).

(** The values [main] holds when it enters the loop. *)
Record server : Type := mkServer {
  verbose : bool;                  (* *verbose *)
  HardwareAddr : list byte;        (* ifc.HardwareAddr *)
  serverIP : list byte;            (* serverIP *)
  macToIP : table                  (* macToIP *)
}.

Section Loop.

(** The error [unix.Sendto] answers for a frame, nil being [None]. *)
Variable Sendto : list byte → option error.
Variable srv : server.

Definition log_if_verbose (l : logline) : list event :=
  if verbose srv then [EvLog l] else [].

(** The body of [for { ... }] from the frame read on. *)
Definition main_frame (frame : list byte) : run (list event) :=
  '(eth, pkt, err) ← parseIncomingRarp frame;
  match err with
  | Some e => Ret (log_if_verbose (LogSkipFrame e))
  | None =>
      if decide (Oper pkt ≠ htons RARP_REQUEST)
      then Ret (log_if_verbose (LogIgnoreOpcode (Oper pkt)))
      else
        let targetMAC := THA pkt in
        match macToIP srv !! targetMAC with
        | None =>
            Ret (EvLookup targetMAC :: log_if_verbose (LogNoMapping targetMAC))
        | Some ip4 =>
            '(reply, err) ← buildRarpReply (HardwareAddr srv) (serverIP srv)
                                           (THA pkt) ip4;
            match err with
            | Some e => Ret [EvLookup targetMAC; EvLog (LogBuildReply e)]
            | None =>
                match Sendto reply with
                | Some e =>
                    Ret [EvLookup targetMAC; EvSendto reply;
                         EvLog (LogSendto e)]
                | None =>
                    Ret (EvLookup targetMAC :: EvSendto reply ::
                         log_if_verbose (LogAnswered (THA pkt) ip4))
                end
            end
        end
  end.

(** The loop over what [reader.Read] answers turn after turn: a frame, or
    an error, on which [log.Fatalf] ends the process. The result says
    whether the process ended that way. *)
Fixpoint main_loop (reads : list (list byte + error))
  : run (list event * bool) :=
  match reads with
  | [] => Ret ([], false)
  | inr e :: _ => Ret ([EvLog (LogFatalRead e)], true)
  | inl frame :: reads' =>
      evs ← main_frame frame;
      '(evs', fatal) ← main_loop reads';
      Ret (evs ++ evs', fatal)
  end.

End Loop.

(** The frames a list of events hands to [unix.Sendto], and the keys at
    which it reads the map. *)
Definition sent (evs : list event) : list (list byte) :=
  omap (λ e, match e with EvSendto f => Some f | _ => None end) evs.

Definition lookups (evs : list event) : list (list byte) :=
  omap (λ e, match e with EvLookup k => Some k | _ => None end) evs.

(** ** The library functions, as the Go standard library defines them

    An instance of [GoLib] on which the parser can be run. [TrimSpace] is
    Go's on text whose leading and trailing characters are ASCII (Go goes on
    to trim Unicode white space where the text starts or ends with other
    bytes); [ParseMAC] is Go's; [ParseIP] is Go's on dotted-decimal text and
    on text that is no address at all, and answers nil on the IPv6 forms,
    which the instance leaves out. *)
Module GoStd.

(** The table [asciiSpace] of package strings. *)
Definition asciiSpace (c : ascii) : bool :=
  bool_decide (c ∈ ["009"; "010"; "011"; "012"; "013"; " "]%char).

Fixpoint trim_left (s : string) : string :=
  match s with
  | String c s' => if asciiSpace c then trim_left s' else s
  | EmptyString => EmptyString
  end.

Fixpoint trim_right (s : string) : string :=
  match s with
  | EmptyString => EmptyString
  | String c s' =>
      match trim_right s' with
      | EmptyString => if asciiSpace c then EmptyString else String c EmptyString
      | t => String c t
      end
  end.

Definition TrimSpace (s : string) : string := trim_right (trim_left s).

(** One digit of [xtoi]. *)
Definition xdigit (c : ascii) : option Z :=
  let n := Z.of_N (N_of_ascii c) in
  if bool_decide (48 ≤ n ≤ 57) then Some (n - 48)
  else if bool_decide (97 ≤ n ≤ 102) then Some (n - 97 + 10)
  else if bool_decide (65 ≤ n ≤ 70) then Some (n - 65 + 10)
  else None.

(** [xtoi2(s, e)]: the next two hex digits of [s] as a byte; a third
    character, if there is one, must be [e]. *)
Definition xtoi2 (s : string) (e : ascii) : option byte :=
  match s with
  | String c0 (String c1 rest) =>
      let third_ok :=
        match rest with
        | String c2 _ => bool_decide (c2 = e)
        | EmptyString => true
        end in
      if third_ok then
        d0 ← xdigit c0;
        d1 ← xdigit c1;
        Some (to_byte (d0 * 16 + d1))
      else None
  | _ => None
  end.

Fixpoint sdrop (n : nat) (s : string) : string :=
  match n, s with
  | S n', String _ s' => sdrop n' s'
  | _, _ => s
  end.

(** The loop of the colon and dash forms: [n] groups [hh], three
    characters apart. *)
Fixpoint mac_groups (n : nat) (s : string) (e : ascii) : option (list byte) :=
  match n with
  | O => Some []
  | S n' =>
      b ← xtoi2 s e;
      hw ← mac_groups n' (sdrop 3 s) e;
      Some (b :: hw)
  end.

(** The loop of the dot form: [n] groups [hhhh], five characters apart. *)
Fixpoint mac_quads (n : nat) (s : string) (e : ascii) : option (list byte) :=
  match n with
  | O => Some []
  | S n' =>
      b0 ← xtoi2 (substring 0 2 s) zero;
      b1 ← xtoi2 (sdrop 2 s) e;
      hw ← mac_quads n' (sdrop 5 s) e;
      Some (b0 :: b1 :: hw)
  end.

(** [net.ParseMAC]: 6, 8 or 20 bytes written [hh:hh:...], [hh-hh-...] or
    [hhhh.hhhh. ...]. *)
Definition ParseMAC (s : string) : option (list byte) :=
  let len := String.length s in
  if decide (len < 14)%nat then None
  else
    match get 2 s, get 4 s with
    | Some s2, Some s4 =>
        if decide (s2 = ":" ∨ s2 = "-")%char then
          if decide ((len + 1) mod 3 ≠ 0)%nat then None
          else
            let n := ((len + 1) / 3)%nat in
            if decide (n ≠ 6 ∧ n ≠ 8 ∧ n ≠ 20)%nat then None
            else mac_groups n s s2
        else if decide (s4 = "."%char) then
          if decide ((len + 1) mod 5 ≠ 0)%nat then None
          else
            let n := (2 * (len + 1) / 5)%nat in
            if decide (n ≠ 6 ∧ n ≠ 8 ∧ n ≠ 20)%nat then None
            else mac_quads (n / 2) s s4
        else None
    | _, _ => None
    end.

(** The loop of [parseIPv4]: [fields] holds the octets read so far, last
    first, [val] and [digLen] the octet being read, [first] and [prev_dot]
    say whether the character is the first of the text and whether the
    one before it was a dot. *)
Fixpoint parseIPv4_loop (s : string) (first prev_dot : bool)
    (fields : list byte) (val : Z) (digLen : nat) : option (list byte) :=
  match s with
  | EmptyString =>
      if decide (length fields < 3)%nat then None
      else Some (reverse (to_byte val :: fields))
  | String c s' =>
      let n := Z.of_N (N_of_ascii c) in
      if bool_decide (48 ≤ n ≤ 57) then
        if decide (digLen = 1%nat ∧ val = 0) then None
        else
          let val := val * 10 + n - 48 in
          if decide (val > 255) then None
          else parseIPv4_loop s' false false fields val (S digLen)
      else if decide (c = "."%char) then
        if first || bool_decide (s' = EmptyString) || prev_dot then None
        else if decide (length fields = 3%nat) then None
        else parseIPv4_loop s' false true (to_byte val :: fields) 0 0
      else None
  end.

(** The first of the characters [.], [:] and [%] in [s], on which
    [ParseAddr] chooses the parser. *)
Fixpoint first_mark (s : string) : option ascii :=
  match s with
  | EmptyString => None
  | String c s' =>
      if bool_decide (c ∈ ["."; ":"; "%"]%char) then Some c
      else first_mark s'
  end.

(** [net.ParseIP]: the 16-byte form of the address, or nil. *)
Definition ParseIP (s : string) : list byte :=
  match first_mark s with
  | Some "."%char =>
      match parseIPv4_loop s true false [] 0 0 with
      | Some ip4 => replicate 10 x00 ++ [xff; xff] ++ ip4
      | None => []
      end
  | _ => []   (* [:] starts the IPv6 forms, which are left out *)
  end.

#[export] Instance lib : GoLib := Build_GoLib TrimSpace ParseMAC ParseIP.

End GoStd.

(** ** The interface, its address and the socket *)

(** What the program reads of package net: an interface as
    [net.InterfaceByName] describes it, the flag [net.FlagUp], and the two
    kinds of address [Interface.Addrs] answers. A nil hardware address
    is []. *)
Module net.

Record Interface : Type := mkInterface {
  Index : Z;
  Name : string;
  HardwareAddr : list byte;
  Flags : Z
}.

Definition FlagUp : Z := 1.

Inductive Addr : Type :=
  | IPNet (IP Mask : list byte)   (* a net.IPNet *)
  | IPAddr (IP : list byte).      (* a net.IPAddr *)

End net.

(** A value or an error of the type [E]. *)
Inductive outcome (E A : Type) : Type :=
  | Good (a : A)
  | Bad (e : E).

Arguments Good {E A} a.
Arguments Bad {E A} e.

(** The errors of [ifaceByName], [firstIPv4Addr] and [openRawSocket]. *)
Inductive start_error : Type :=
  | ErrLookup (e : error)           (* the error of the library call, as it is *)
  | ErrInterfaceDown (name : string) (* interface %s is down *)
  | ErrNoMAC (name : string)        (* interface %s has no 6-byte MAC *)
  | ErrNoIPv4                       (* no IPv4 on interface *)
  | ErrSocket (e : error)           (* socket: %w *)
  | ErrBind (e : error).            (* bind: %w *)

(** The calls into the kernel [openRawSocket] makes, in order. *)
Inductive syscall : Type :=
  | SysSocket (domain typ proto : Z)        (* unix.Socket *)
  | SysBind (fd Protocol Ifindex : Z)       (* unix.Bind, SockaddrLinklayer *)
  | SysClose (fd : Z).                      (* unix.Close *)

Definition AF_PACKET : Z := 17.
Definition SOCK_RAW : Z := 3.

(** The host the program runs on: what the library and the kernel answer.
    [Bind] answers the error of [unix.Bind], nil being [None]. *)
Class Host : Type := {
  InterfaceByName : string → outcome error net.Interface;
  Addrs : net.Interface → outcome error (list net.Addr);
  Socket : Z → Z → Z → outcome error Z;
  Bind : Z → Z → Z → option error
}.

Section Startup.

Context {H : Host} {L : GoLib}.

(** [func ifaceByName(name string)], which returns a pointer to the
    [net.Interface] and an error. *)
Definition ifaceByName (name : string) : outcome start_error net.Interface :=
  match InterfaceByName name with
  | Bad err => Bad (ErrLookup err)
  | Good ifc =>
      if decide (Z.land (net.Flags ifc) net.FlagUp = 0)
      then Bad (ErrInterfaceDown name)
      else if decide (length (net.HardwareAddr ifc) ≠ 6%nat)
           then Bad (ErrNoMAC name)
           else Good ifc
  end.

(** The loop [for _, a := range addrs] of [firstIPv4Addr]. *)
Fixpoint firstIPv4Addr_loop (addrs : list net.Addr)
  : outcome start_error (list byte) :=
  match addrs with
  | [] => Bad ErrNoIPv4
  | net.IPNet ip _ :: addrs' =>
      match To4 ip with
      | Some ip4 => Good ip4
      | None => firstIPv4Addr_loop addrs'
      end
  | net.IPAddr _ :: addrs' => firstIPv4Addr_loop addrs'
  end.

(** [func firstIPv4Addr(name string) (net.IP, error)] *)
Definition firstIPv4Addr (name : string) : outcome start_error (list byte) :=
  match InterfaceByName name with
  | Bad err => Bad (ErrLookup err)
  | Good ifc =>
      match Addrs ifc with
      | Bad err => Bad (ErrLookup err)
      | Good addrs => firstIPv4Addr_loop addrs
      end
  end.

(** [func openRawSocket(ifc) (int, error)], with the calls it makes. *)
Definition openRawSocket (ifc : net.Interface)
  : list syscall * outcome start_error Z :=
  let proto := htons ETH_P_RARP in
  match Socket AF_PACKET SOCK_RAW proto with
  | Bad err => ([SysSocket AF_PACKET SOCK_RAW proto], Bad (ErrSocket err))
  | Good fd =>
      match Bind fd proto (net.Index ifc) with
      | Some err =>
          ([SysSocket AF_PACKET SOCK_RAW proto;
            SysBind fd proto (net.Index ifc); SysClose fd],
           Bad (ErrBind err))
      | None =>
          ([SysSocket AF_PACKET SOCK_RAW proto;
            SysBind fd proto (net.Index ifc)],
           Good fd)
      end
  end.

(** How [main] reaches its loop, or ends in [log.Fatalf]. *)
Inductive started : Type :=
  | Started (srv : server) (fd : Z)
  | FatalStart (e : start_error)
  | FatalMapping (e : error).

(** [main] from the flags parsed to the loop: the four steps in the order
    of the source, each ending the process on an error. *)
Definition main_start (iface mapping : string) (verbose : bool)
  : run (list syscall * started) :=
  match ifaceByName iface with
  | Bad err => Ret ([], FatalStart err)
  | Good ifc =>
      match firstIPv4Addr iface with
      | Bad err => Ret ([], FatalStart err)
      | Good serverIP =>
          r ← parseMapping mapping;
          match r with
          | Err err => Ret ([], FatalMapping err)
          | Ok macToIP =>
              match openRawSocket ifc with
              | (calls, Bad err) => Ret (calls, FatalStart err)
              | (calls, Good fd) =>
                  Ret (calls,
                       Started (mkServer verbose (net.HardwareAddr ifc)
                                         serverIP macToIP) fd)
              end
          end
      end
  end.

End Startup.

(** The descriptors a run of calls closes. *)
Definition closed_fds (calls : list syscall) : list Z :=
  omap (λ c, match c with SysClose fd => Some fd | _ => None end) calls.

(** ** Notions the properties are stated with *)

(** The two bytes at [off] and [off + 1] read as one big-endian word. *)
Definition word_at (b : list byte) (off : nat) : Z :=
  Z.lor (u8 (nth (S off) b x00)) (Z.shiftl (u8 (nth off b x00)) 8).

(** The 42 bytes [buildRarpReply] returns, written out. *)
Definition reply_bytes (serverMAC serverIP targetMAC targetIP : list byte)
  : list byte :=
  targetMAC ++ serverMAC ++ [x35; x80]
    ++ [x01; x00] ++ [x00; x08] ++ [x06] ++ [x04] ++ [x04; x00]
    ++ serverMAC ++ serverIP ++ targetMAC ++ targetIP.

(** The header and the packet [parseIncomingRarp] reads off a frame. *)
Definition eth_of (b : list byte) : EthHdr :=
  mkEthHdr (take 6 b) (take 6 (drop 6 b)) (word_at b 12).

Definition pkt_of (b : list byte) : RarpPacket :=
  mkRarpPacket (word_at b 14) (word_at b 16) (nth 18 b x00) (nth 19 b x00)
               (word_at b 20)
               (take 6 (drop 22 b)) (take 4 (drop 28 b))
               (take 6 (drop 32 b)) (take 4 (drop 38 b)).

(** A list of known length is the list of its elements. *)
Ltac explode :=
  repeat match goal with
  | H : length ?l = O |- _ => apply nil_length_inv in H; subst l
  | H : length ?l = S _ |- _ =>
      is_var l; destruct l as [|? l];
      [discriminate H | simpl in H; apply Nat.succ_inj in H]
  end.

(** The shape of a table of 6-byte keys and 4-byte values. *)
Definition table_wf (m : table) : Prop :=
  ∀ mac ip, m !! mac = Some ip → length mac = 6%nat ∧ length ip = 4%nat.

(** ** Example data

    A server 02:00:00:00:00:01 at 192.168.1.1, a client aa:bb:cc:dd:ee:ff
    that the table maps to 192.168.1.10, and request frames of the client. *)

Definition ex_serverMAC : list byte := [x02; x00; x00; x00; x00; x01].
Definition ex_serverIP : list byte := [xc0; xa8; x01; x01].
Definition ex_clientMAC : list byte := [xaa; xbb; xcc; xdd; xee; xff].
Definition ex_clientIP : list byte := [xc0; xa8; x01; x0a].
Definition ex_otherMAC : list byte := [x52; x54; x00; x12; x34; x56].

(** A 42-byte broadcast frame of the client, with the given bytes in the
    ethertype field (12, 13) and in the opcode field (20, 21), hardware type
    00 01, protocol type 08 00, lengths 6 and 4, and [tha] as target
    hardware address. *)
Definition ex_frame (ty0 ty1 op0 op1 : byte) (tha : list byte) : list byte :=
  [xff; xff; xff; xff; xff; xff] ++ ex_clientMAC ++ [ty0; ty1]
    ++ [x00; x01] ++ [x08; x00] ++ [x06] ++ [x04] ++ [op0; op1]
    ++ ex_clientMAC ++ [x00; x00; x00; x00] ++ tha ++ [x00; x00; x00; x00].

(** The RARP request of RFC 903 as it travels on the wire: ethertype 0x8035
    and opcode 3, both in network byte order. *)
Definition ex_wire_request : list byte := ex_frame x80 x35 x00 x03 ex_clientMAC.

(** The same request with the two bytes of the ethertype and of the opcode
    exchanged: 35 80 and 03 00, which in network byte order read 0x3580 and
    0x0300. *)
Definition ex_swapped_request : list byte := ex_frame x35 x80 x03 x00 ex_clientMAC.

(** A frame that passes the decoder (ethertype bytes 35 80) and whose opcode
    field holds 3, REQUEST, in network byte order (bytes 00 03). *)
Definition ex_decoded_request : list byte := ex_frame x35 x80 x00 x03 ex_clientMAC.

Definition ex_table : table := {[ ex_clientMAC := ex_clientIP ]}.

Definition ex_server : server := mkServer false ex_serverMAC ex_serverIP ex_table.

(** [unix.Sendto] succeeding on every frame. *)
Definition Sendto_ok (frame : list byte) : option error := None.

(** A host with one interface, [eth0], up, with the server's addresses, an
    IPv6 address listed before the IPv4 one, and a kernel that answers
    descriptor 3 and binds it. *)
Definition ex_ifc : net.Interface :=
  net.mkInterface 2 "eth0" ex_serverMAC 1.

Definition ex_addrs : list net.Addr :=
  [net.IPNet ([xfe; x80] ++ replicate 13 x00 ++ [x01]) (replicate 16 xff);
   net.IPNet (replicate 10 x00 ++ [xff; xff] ++ ex_serverIP) [xff; xff; xff; x00]].

Definition ex_host : Host :=
  {| InterfaceByName name :=
       if decide (name = "eth0") then Good ex_ifc else Bad (Errno 19);
     Addrs ifc := Good ex_addrs;
     Socket domain typ proto := Good 3;
     Bind fd proto ifindex := None |}.

(** * Properties *)

(** ** The primitives *)

Lemma bind_Ret {A B} (a : A) (f : A → run B) : (Ret a ≫= f) = f a.
Proof. reflexivity. Qed.

Lemma slice_ok (s : list byte) (lo hi : nat) :
  (lo ≤ hi)%nat → (hi ≤ length s)%nat →
  slice s lo hi = Ret (take (hi - lo) (drop lo s)).
Proof. intros Hlo Hhi. unfold slice. by rewrite decide_True. Qed.

Lemma slice_all (s : list byte) (n : nat) :
  length s = n → slice s 0 n = Ret s.
Proof.
  intros <-. rewrite slice_ok by lia.
  by rewrite Nat.sub_0_r, drop_0, firstn_all.
Qed.

Lemma slice_short (s : list byte) (lo hi : nat) :
  (length s < hi)%nat → slice s lo hi = Panic SliceBounds.
Proof. intros H. unfold slice. rewrite decide_False; [done | lia]. Qed.

Lemma lookup_nth (s : list byte) (i : nat) :
  (i < length s)%nat → s !! i = Some (nth i s x00).
Proof.
  intros H. destruct (lookup_lt_is_Some_2 s i H) as [b Hb]. rewrite Hb.
  f_equal. symmetry. by apply nth_lookup_Some with (d := x00) in Hb.
Qed.

Lemma index_ok (s : list byte) (i : nat) :
  (i < length s)%nat → index s i = Ret (nth i s x00).
Proof. intros H. unfold index. by rewrite lookup_nth. Qed.

Lemma copy_full (dst src : list byte) :
  length src = length dst → copy dst src = src.
Proof.
  intros H. unfold copy.
  rewrite <- H, firstn_all, H, drop_all. apply app_nil_r.
Qed.

Lemma length_copy (dst src : list byte) : length (copy dst src) = length dst.
Proof.
  unfold copy. rewrite length_app, length_take, length_drop. lia.
Qed.

Lemma Uint16_at (b : list byte) (off : nat) :
  (off + 2 ≤ length b)%nat →
  BigEndian.Uint16 (take 2 (drop off b)) = Ret (word_at b off).
Proof.
  revert b. induction off as [|off IH]; intros b H.
  - destruct b as [|x [|y l]]; simpl in H; try lia. reflexivity.
  - destruct b as [|x l]; simpl in H; [lia|].
    rewrite skipn_cons. rewrite IH by lia. reflexivity.
Qed.

Lemma u8_bound (b : byte) : 0 ≤ u8 b < 256.
Proof. unfold u8. pose proof (Byte.to_N_bounded b). lia. Qed.

Lemma u8_inj (a b : byte) : u8 a = u8 b → a = b.
Proof.
  unfold u8. intros H. apply N2Z.inj in H.
  assert (Some a = Some b) as [= ->]; [|done].
  by rewrite <- (Byte.of_to_N a), <- (Byte.of_to_N b), H.
Qed.

(** A big-endian word is its high byte times 256 plus its low byte. *)
Lemma word_value (hi lo : byte) :
  Z.lor (u8 lo) (Z.shiftl (u8 hi) 8) = u8 hi * 256 + u8 lo.
Proof.
  pose proof (u8_bound lo) as Hlo. pose proof (u8_bound hi) as Hhi.
  rewrite Z.shiftl_mul_pow2 by lia. rewrite Z.lor_comm.
  assert (Z.land (u8 hi * 2 ^ 8) (u8 lo) = 0) as Hland.
  { apply Z.bits_inj'. intros n Hn. rewrite Z.land_spec, Z.bits_0.
    destruct (decide (n < 8)) as [Hlt|Hge].
    - rewrite Z.mul_pow2_bits_low by lia. reflexivity.
    - assert (Z.testbit (u8 lo) n = false) as ->; [|apply andb_false_r].
      destruct (decide (u8 lo = 0)) as [->|Hnz]; [apply Z.bits_0|].
      apply Z.bits_above_log2; [lia|].
      apply Z.log2_lt_pow2; [lia|].
      apply Z.lt_le_trans with (2 ^ 8); [change (2 ^ 8) with 256; lia|].
      apply Z.pow_le_mono_r; lia. }
  rewrite <- (Z.lxor_lor _ _ Hland), <- (Z.add_nocarry_lxor _ _ Hland).
  reflexivity.
Qed.

(** ** The frame codec *)

Lemma htons_ETH_P_RARP : htons ETH_P_RARP = 0x3580.
Proof. reflexivity. Qed.

Lemma htons_RARP_REQUEST : htons RARP_REQUEST = 0x0300.
Proof. reflexivity. Qed.

Lemma htons_RARP_REPLY : htons RARP_REPLY = 0x0400.
Proof. reflexivity. Qed.

Lemma buildRarpReply_bytes (serverMAC serverIP targetMAC targetIP : list byte) :
  length serverMAC = 6%nat → length serverIP = 4%nat →
  length targetMAC = 6%nat → length targetIP = 4%nat →
  buildRarpReply serverMAC serverIP targetMAC targetIP
  = Ret (reply_bytes serverMAC serverIP targetMAC targetIP, None).
Proof. intros Hsm Hsi Htm Hti. explode. reflexivity. Qed.

Lemma length_reply_bytes (serverMAC serverIP targetMAC targetIP : list byte) :
  length serverMAC = 6%nat → length serverIP = 4%nat →
  length targetMAC = 6%nat → length targetIP = 4%nat →
  length (reply_bytes serverMAC serverIP targetMAC targetIP) = 42%nat.
Proof.
  intros Hsm Hsi Htm Hti. unfold reply_bytes.
  rewrite !length_app, Hsm, Hsi, Htm, Hti. reflexivity.
Qed.

(** A MAC shorter than six bytes stops [buildRarpReply] with a panic. *)
Lemma buildRarpReply_short_target (serverMAC serverIP targetMAC targetIP : list byte) :
  (length targetMAC < 6)%nat →
  buildRarpReply serverMAC serverIP targetMAC targetIP = Panic SliceBounds.
Proof.
  intros H. unfold buildRarpReply. rewrite (slice_short targetMAC 0 6) by done. reflexivity.
Qed.

Lemma parseIncomingRarp_short (b : list byte) :
  (length b < 42)%nat →
  parseIncomingRarp b
  = Ret (EthHdr_zero, RarpPacket_zero, Some (FrameTooShort (length b))).
Proof. intros H. unfold parseIncomingRarp. by rewrite decide_True. Qed.

Lemma copy_window (dst b : list byte) (lo n : nat) :
  length dst = n → (lo + n ≤ length b)%nat →
  copy dst (take n (drop lo b)) = take n (drop lo b).
Proof.
  intros Hd Hb. apply copy_full.
  rewrite length_take, length_drop. lia.
Qed.

Lemma parseIncomingRarp_long (b : list byte) :
  (42 ≤ length b)%nat →
  parseIncomingRarp b
  = Ret (if decide (word_at b 12 ≠ htons ETH_P_RARP)
         then (eth_of b, RarpPacket_zero, Some (WrongEthertype (word_at b 12)))
         else (eth_of b, pkt_of b, None)).
Proof.
  intros H. unfold parseIncomingRarp.
  rewrite decide_False by (simpl; lia).
  rewrite !slice_ok by (simpl; lia). rewrite !index_ok by (simpl; lia).
  simpl Nat.add. simpl Nat.sub.
  cbn [mbind run_bind Type_ Dst Src EthHdr_zero].
  rewrite !Uint16_at by lia.
  cbn [mbind run_bind Type_ Dst Src EthHdr_zero].
  rewrite (copy_window zero6 b 0 6), (copy_window zero6 b 6 6),
    (copy_window zero6 b 22 6), (copy_window zero4 b 28 4),
    (copy_window zero6 b 32 6), (copy_window zero4 b 38 4)
    by (reflexivity || simpl; lia).
  rewrite drop_0.
  destruct (decide (word_at b 12 ≠ htons ETH_P_RARP)); reflexivity.
Qed.

(** The ethertype test of [parseIncomingRarp], byte by byte: the frame
    passes it when its bytes 12 and 13 are 0x35 and 0x80. *)
Lemma ethertype_test_bytes (b : list byte) :
  (42 ≤ length b)%nat →
  word_at b 12 = htons ETH_P_RARP ↔ b !! 12%nat = Some x35 ∧ b !! 13%nat = Some x80.
Proof.
  intros H. rewrite htons_ETH_P_RARP. unfold word_at. rewrite word_value.
  rewrite !lookup_nth by lia.
  pose proof (u8_bound (nth 12 b x00)). pose proof (u8_bound (nth 13 b x00)).
  split.
  - intros Hw.
    assert (u8 (nth 12 b x00) = u8 x35) as ->%u8_inj
      by (change (u8 x35) with 0x35; lia).
    assert (u8 (nth 13 b x00) = u8 x80) as ->%u8_inj
      by (change (u8 x80) with 0x80; lia).
    done.
  - intros [[= ->] [= ->]]. reflexivity.
Qed.

(** Decoding what [buildRarpReply] encoded: the four addresses come back,
    and so do the three 16-bit fields as [htons] left them. *)
Lemma parse_build (serverMAC serverIP targetMAC targetIP : list byte) :
  length serverMAC = 6%nat → length serverIP = 4%nat →
  length targetMAC = 6%nat → length targetIP = 4%nat →
  (r ← buildRarpReply serverMAC serverIP targetMAC targetIP;
   parseIncomingRarp r.1)
  = Ret (mkEthHdr targetMAC serverMAC (htons ETH_P_RARP),
         mkRarpPacket (htons 1) (htons ETH_P_IP) x06 x04 (htons RARP_REPLY)
                      serverMAC serverIP targetMAC targetIP,
         None).
Proof. intros Hsm Hsi Htm Hti. explode. reflexivity. Qed.

(** C1. Decoding the frame [buildRarpReply] produced for a valid quadruple
    succeeds and recovers the four addresses, in the Ethernet header and in
    the sender and target fields; the decoded opcode, however, is 0x0400
    (1024), the value [htons] gives for 4, and not REPLY (4). *)
Theorem decode_encode_opcode_is_swapped
    (serverMAC serverIP targetMAC targetIP : list byte) :
  length serverMAC = 6%nat → length serverIP = 4%nat →
  length targetMAC = 6%nat → length targetIP = 4%nat →
  ∃ eth pkt,
    (r ← buildRarpReply serverMAC serverIP targetMAC targetIP;
     parseIncomingRarp r.1) = Ret (eth, pkt, None)
    ∧ Dst eth = targetMAC ∧ Src eth = serverMAC
    ∧ SHA pkt = serverMAC ∧ SPA pkt = serverIP
    ∧ THA pkt = targetMAC ∧ TPA pkt = targetIP
    ∧ Oper pkt = 1024 ∧ Oper pkt ≠ RARP_REPLY.
Proof.
  intros Hsm Hsi Htm Hti. eexists _, _. split.
  - by apply parse_build.
  - cbn [Dst Src SHA SPA THA TPA Oper]. rewrite htons_RARP_REPLY.
    repeat split; discriminate.
Qed.

(** The reply of the example server to the example client, decoded. *)
Lemma decode_encode_opcode_is_swapped_ex :
  ∃ eth pkt,
    (r ← buildRarpReply ex_serverMAC ex_serverIP ex_clientMAC ex_clientIP;
     parseIncomingRarp r.1) = Ret (eth, pkt, None)
    ∧ Dst eth = ex_clientMAC ∧ Src eth = ex_serverMAC
    ∧ SHA pkt = ex_serverMAC ∧ SPA pkt = ex_serverIP
    ∧ THA pkt = ex_clientMAC ∧ TPA pkt = ex_clientIP
    ∧ Oper pkt = 1024 ∧ Oper pkt ≠ RARP_REPLY.
Proof.
  apply (decode_encode_opcode_is_swapped
           ex_serverMAC ex_serverIP ex_clientMAC ex_clientIP); reflexivity.
Defined.

(** C2. For a valid quadruple [buildRarpReply] returns 42 bytes with the
    addresses and the two length bytes where the layout puts them, but each
    16-bit field holds its value with the two bytes exchanged: 35 80 for the
    ethertype 0x8035, 01 00 for the hardware type 1, 00 08 for the protocol
    type 0x0800 and 04 00 for the opcode 4, which read in network byte order
    are 0x3580, 0x0100, 0x0008 and 0x0400. *)
Theorem buildRarpReply_words_are_swapped
    (serverMAC serverIP targetMAC targetIP : list byte) :
  length serverMAC = 6%nat → length serverIP = 4%nat →
  length targetMAC = 6%nat → length targetIP = 4%nat →
  ∃ buf,
    buildRarpReply serverMAC serverIP targetMAC targetIP = Ret (buf, None)
    ∧ length buf = 42%nat
    ∧ take 6 buf = targetMAC ∧ take 6 (drop 6 buf) = serverMAC
    ∧ take 2 (drop 12 buf) = [x35; x80] ∧ word_at buf 12 ≠ ETH_P_RARP
    ∧ take 2 (drop 14 buf) = [x01; x00] ∧ word_at buf 14 ≠ 1
    ∧ take 2 (drop 16 buf) = [x00; x08] ∧ word_at buf 16 ≠ ETH_P_IP
    ∧ buf !! 18%nat = Some x06 ∧ buf !! 19%nat = Some x04
    ∧ take 2 (drop 20 buf) = [x04; x00] ∧ word_at buf 20 ≠ RARP_REPLY
    ∧ take 6 (drop 22 buf) = serverMAC ∧ take 4 (drop 28 buf) = serverIP
    ∧ take 6 (drop 32 buf) = targetMAC ∧ take 4 (drop 38 buf) = targetIP.
Proof.
  intros Hsm Hsi Htm Hti. eexists. split.
  - by apply buildRarpReply_bytes.
  - explode. repeat split; discriminate.
Qed.

(** The bytes of the reply of the example server to the example client. *)
Lemma buildRarpReply_words_are_swapped_ex :
  ∃ buf,
    buildRarpReply ex_serverMAC ex_serverIP ex_clientMAC ex_clientIP
    = Ret (buf, None)
    ∧ length buf = 42%nat
    ∧ take 6 buf = ex_clientMAC ∧ take 6 (drop 6 buf) = ex_serverMAC
    ∧ take 2 (drop 12 buf) = [x35; x80] ∧ word_at buf 12 ≠ ETH_P_RARP
    ∧ take 2 (drop 14 buf) = [x01; x00] ∧ word_at buf 14 ≠ 1
    ∧ take 2 (drop 16 buf) = [x00; x08] ∧ word_at buf 16 ≠ ETH_P_IP
    ∧ buf !! 18%nat = Some x06 ∧ buf !! 19%nat = Some x04
    ∧ take 2 (drop 20 buf) = [x04; x00] ∧ word_at buf 20 ≠ RARP_REPLY
    ∧ take 6 (drop 22 buf) = ex_serverMAC ∧ take 4 (drop 28 buf) = ex_serverIP
    ∧ take 6 (drop 32 buf) = ex_clientMAC ∧ take 4 (drop 38 buf) = ex_clientIP.
Proof.
  apply (buildRarpReply_words_are_swapped
           ex_serverMAC ex_serverIP ex_clientMAC ex_clientIP); reflexivity.
Defined.

(** On a frame of 42 bytes or more, [parseIncomingRarp] answers the
    wrong-ethertype error exactly when bytes 12 and 13 are not 35 80. *)
Lemma parseIncomingRarp_WrongEthertype_iff (b : list byte) :
  (42 ≤ length b)%nat →
  (∃ eth pkt ty, parseIncomingRarp b = Ret (eth, pkt, Some (WrongEthertype ty)))
  ↔ ¬ (b !! 12%nat = Some x35 ∧ b !! 13%nat = Some x80).
Proof.
  intros H. rewrite <- ethertype_test_bytes by done.
  rewrite parseIncomingRarp_long by done.
  destruct (decide (word_at b 12 ≠ htons ETH_P_RARP)) as [Hne|Heq].
  - split; [done | intros _; by eexists _, _, _].
  - apply dec_stable in Heq. split; [|done].
    intros (eth & pkt & ty & [= _ _ ?]).
Qed.

(** C3. The RARP request as it travels on the wire, whose ethertype field
    holds 0x8035 in network byte order (bytes 80 35), is rejected for its
    ethertype: [parseIncomingRarp] answers the wrong-ethertype error, with
    0x8035 as the offending value. *)
Theorem wire_ethertype_8035_is_rejected :
  take 2 (drop 12 ex_wire_request) = [x80; x35]
  ∧ word_at ex_wire_request 12 = ETH_P_RARP
  ∧ parseIncomingRarp ex_wire_request
    = Ret (eth_of ex_wire_request, RarpPacket_zero,
           Some (WrongEthertype ETH_P_RARP)).
Proof. repeat split. Qed.

(** C10. [parseIncomingRarp] returns a nil error exactly for the frames of
    at least 42 bytes whose ethertype word passes its comparison with
    [htons(ETH_P_RARP)]; for each of them the packet it returns holds the
    hardware type, protocol type, two lengths and opcode as the bytes of the
    frame give them, whatever they are, beside the four addresses. *)
Theorem parseIncomingRarp_checks_length_and_ethertype_only (b : list byte) :
  ((∃ eth pkt, parseIncomingRarp b = Ret (eth, pkt, None))
   ↔ (42 ≤ length b)%nat ∧ word_at b 12 = htons ETH_P_RARP)
  ∧ ((42 ≤ length b)%nat ∧ word_at b 12 = htons ETH_P_RARP →
     parseIncomingRarp b = Ret (eth_of b, pkt_of b, None)).
Proof.
  assert ((42 ≤ length b)%nat ∧ word_at b 12 = htons ETH_P_RARP →
          parseIncomingRarp b = Ret (eth_of b, pkt_of b, None)) as Hpass.
  { intros [Hlen Hty]. rewrite parseIncomingRarp_long by done.
    by rewrite decide_False by (intros Hne; by apply Hne). }
  split; [split|]; [|by eauto|done].
  intros (eth & pkt & Hok).
  destruct (decide (length b < 42)%nat) as [Hshort|Hlong].
  - by rewrite parseIncomingRarp_short in Hok.
  - rewrite parseIncomingRarp_long in Hok by lia.
    destruct (decide (word_at b 12 ≠ htons ETH_P_RARP)) as [Hne|Heq];
      [done|].
    apply dec_stable in Heq. split; [lia | done].
Qed.

(** A 45-byte frame with opcode 0xdead and three bytes after the packet
    decodes, and the packet holds that opcode. *)
Lemma parseIncomingRarp_checks_length_and_ethertype_only_ex :
  parseIncomingRarp (ex_frame x35 x80 xde xad ex_otherMAC ++ [x00; x01; x02])
  = Ret (mkEthHdr [xff; xff; xff; xff; xff; xff] ex_clientMAC 0x3580,
         mkRarpPacket 1 0x0800 x06 x04 0xdead
                      ex_clientMAC [x00; x00; x00; x00]
                      ex_otherMAC [x00; x00; x00; x00],
         None).
Proof.
  apply (parseIncomingRarp_checks_length_and_ethertype_only
           (ex_frame x35 x80 xde xad ex_otherMAC ++ [x00; x01; x02])).
  split; [vm_compute; lia | reflexivity].
Defined.

(** ** The mapping table *)

Lemma SplitN_2 (s : string) (sep : ascii) :
  SplitN s sep 2
  = match cut s sep with
    | None => [s]
    | Some (a, rest) => [a; rest]
    end.
Proof. simpl. by destruct (cut s sep) as [[a rest]|]. Qed.

Lemma length_Split_pos (s : string) (sep : ascii) :
  (1 ≤ length (Split s sep))%nat.
Proof.
  induction s as [|c s IH]; simpl; [lia|].
  destruct (decide (c = sep)); simpl; [lia|].
  destruct (Split s sep); simpl in *; lia.
Qed.

Lemma length_Split_cons (c : ascii) (s : string) (sep : ascii) :
  length (Split (String c s) sep)
  = if decide (c = sep) then S (length (Split s sep))
    else length (Split s sep).
Proof.
  simpl. destruct (decide (c = sep)); [done|].
  pose proof (length_Split_pos s sep).
  destruct (Split s sep); simpl in *; [lia | done].
Qed.

(** [cut] finds no separator exactly where [Split] leaves the text whole. *)
Lemma cut_None_iff (s : string) (sep : ascii) :
  cut s sep = None ↔ length (Split s sep) = 1%nat.
Proof.
  induction s as [|c s IH]; [done|].
  rewrite length_Split_cons. simpl.
  pose proof (length_Split_pos s sep).
  destruct (decide (c = sep)) as [->|Hne].
  - split; [done | lia].
  - rewrite <- IH. by destruct (cut s sep) as [[a rest]|].
Qed.

Lemma Split_no_sep (s : string) (sep : ascii) :
  length (Split s sep) = 1%nat → Split s sep = [s].
Proof.
  induction s as [|c s IH]; [done|].
  rewrite length_Split_cons. simpl.
  pose proof (length_Split_pos s sep).
  destruct (decide (c = sep)) as [->|Hne]; [lia|].
  intros Hlen. by rewrite (IH Hlen).
Qed.

Lemma To4_length (ip ip4 : list byte) : To4 ip = Some ip4 → length ip4 = 4%nat.
Proof.
  unfold To4. repeat case_decide; intros [= <-]; [done|].
  rewrite length_take, length_drop. lia.
Qed.

Section MappingFacts.

Context {L : GoLib}.

Lemma parseMapping_body_blank (p : string) (m : table) :
  TrimSpace p = EmptyString → parseMapping_body p m = Ret (Ok m).
Proof. intros H. unfold parseMapping_body. by rewrite decide_True. Qed.

(** An entry with no [=] in it. *)
Lemma parseMapping_body_no_equals (p : string) (m : table) :
  TrimSpace p ≠ EmptyString → cut (TrimSpace p) "=" = None →
  parseMapping_body p m = Ret (Err (InvalidMappingEntry (TrimSpace p))).
Proof.
  intros Hp Hcut. unfold parseMapping_body.
  rewrite decide_False by done. by rewrite SplitN_2, Hcut.
Qed.

(** An entry with an [=] in it, cut at the first one. *)
Lemma parseMapping_body_cut (p kv0 kv1 : string) (m : table) :
  TrimSpace p ≠ EmptyString → cut (TrimSpace p) "=" = Some (kv0, kv1) →
  parseMapping_body p m
  = match ParseMAC (TrimSpace kv0) with
    | None => Ret (Err (InvalidMacAddress (TrimSpace kv0)))
    | Some mac =>
        match To4 (ParseIP (TrimSpace kv1)) with
        | None => Ret (Err (InvalidIPv4Address (TrimSpace kv1)))
        | Some ip =>
            if decide (6 ≤ length mac)%nat
            then Ret (Ok (<[take 6 mac := ip]> m))
            else Panic SliceBounds
        end
    end.
Proof.
  intros Hp Hcut. unfold parseMapping_body.
  rewrite decide_False by done. rewrite SplitN_2, Hcut.
  destruct (ParseMAC _) as [mac|]; [|done].
  destruct (To4 _) as [ip|] eqn:Hip; [|done].
  apply To4_length in Hip.
  case_decide as Hmac.
  - rewrite (slice_ok mac 0 6) by lia. rewrite (slice_all ip 4) by done.
    cbn [mbind run_bind]. rewrite drop_0. simpl Nat.sub.
    rewrite (copy_full zero4 ip) by done.
    rewrite (copy_full zero6 (take 6 mac)); [done|].
    rewrite length_take. change (length zero6) with 6%nat. lia.
  - rewrite (slice_short mac 0 6) by lia. done.
Qed.

(** What the body does to the map it is given: the result on any map is the
    result on the empty map, laid over the map. *)
Lemma parseMapping_body_frame (p : string) (m : table) :
  parseMapping_body p m
  = match parseMapping_body p ∅ with
    | Ret (Ok t) => Ret (Ok (t ∪ m))
    | r => r
    end.
Proof.
  destruct (decide (TrimSpace p = EmptyString)) as [Hp|Hp].
  - rewrite !parseMapping_body_blank by done. by rewrite (left_id_L ∅ (∪)).
  - destruct (cut (TrimSpace p) "=") as [[kv0 kv1]|] eqn:Hcut.
    + rewrite !(parseMapping_body_cut p kv0 kv1) by done.
      destruct (ParseMAC _) as [mac|]; [|done].
      destruct (To4 _) as [ip|]; [|done].
      case_decide; [|done].
      by rewrite insert_empty, insert_union_singleton_l.
    + by rewrite !parseMapping_body_no_equals.
Qed.

Lemma parseMapping_loop_app (pre rest : list string) (m : table) :
  parseMapping_loop (pre ++ rest) m
  = (r ← parseMapping_loop pre m;
     match r with
     | Ok m' => parseMapping_loop rest m'
     | Err e => Ret (Err e)
     end).
Proof.
  revert m. induction pre as [|p pre IH]; intros m; simpl; [done|].
  destruct (parseMapping_body p m) as [[m'|e]|pn]; simpl; [|done..].
  apply IH.
Qed.

(** A run of entries each of which the body accepts on its own: the loop
    accepts the run, and leaves the map as it was at every key that none of
    the entries binds. *)
Lemma parseMapping_loop_valid (entries : list string) (m : table) :
  (∀ q, q ∈ entries → ∃ t, parseMapping_body q ∅ = Ret (Ok t)) →
  ∃ m', parseMapping_loop entries m = Ret (Ok m')
        ∧ ∀ mac, (∀ q t, q ∈ entries → parseMapping_body q ∅ = Ret (Ok t) →
                         t !! mac = None) →
                 m' !! mac = m !! mac.
Proof.
  revert m. induction entries as [|p entries IH]; intros m Hvalid; simpl.
  - by exists m.
  - destruct (Hvalid p) as [t Ht]; [set_solver|].
    rewrite parseMapping_body_frame, Ht. cbn [mbind run_bind].
    destruct (IH (t ∪ m)) as (m' & Hloop & Hkeep); [set_solver|].
    exists m'. split; [done|]. intros mac Hfree.
    rewrite Hkeep by (intros q t' Hq; apply Hfree; set_solver).
    rewrite lookup_union_r; [done|]. apply (Hfree p t); [set_solver | done].
Qed.

End MappingFacts.



Section MappingTheorems.

Context {L : GoLib}.

(** C7 (amended). Take an entry [p] of the text that is not blank and that
    every entry before it lets the parser reach. The body of the loop fails
    on [p] with the invalid-mapping-entry error exactly when [p], trimmed,
    has no [=] in it (splitting it on [=] gives one part), and then so does
    [parseMapping]. An entry with two or more [=] is cut at the first one
    only and is never rejected with that error. *)
Theorem InvalidMappingEntry_iff_no_equals
    (s : string) (pre post : list string) (p : string) (m1 : table) :
  s ≠ EmptyString → Split s "," = pre ++ p :: post →
  parseMapping_loop pre ∅ = Ret (Ok m1) →
  TrimSpace p ≠ EmptyString →
  ((∃ q, parseMapping_body p m1 = Ret (Err (InvalidMappingEntry q)))
   ↔ length (Split (TrimSpace p) "=") = 1%nat)
  ∧ (length (Split (TrimSpace p) "=") = 1%nat →
     parseMapping s = Ret (Err (InvalidMappingEntry (TrimSpace p)))).
Proof.
  intros Hs Hsplit Hpre Hp.
  assert (length (Split (TrimSpace p) "=") = 1%nat →
          parseMapping_body p m1
          = Ret (Err (InvalidMappingEntry (TrimSpace p)))) as Hone.
  { intros Hlen. apply parseMapping_body_no_equals; [done|].
    by apply cut_None_iff. }
  split; [split|].
  - intros [q Hq].
    destruct (cut (TrimSpace p) "=") as [[kv0 kv1]|] eqn:Hcut;
      [|by apply cut_None_iff].
    rewrite (parseMapping_body_cut p kv0 kv1) in Hq by done.
    destruct (ParseMAC _) as [mac|]; [|done].
    destruct (To4 _) as [ip|]; [|done].
    by case_decide.
  - intros Hlen. eexists. by apply Hone.
  - intros Hlen. unfold parseMapping. rewrite decide_False by done.
    rewrite Hsplit, parseMapping_loop_app, Hpre. simpl.
    by rewrite (Hone Hlen).
Qed.


End MappingTheorems.

(** The text [garbage], which has no [=]. *)
Lemma InvalidMappingEntry_iff_no_equals_ex :
  ((∃ q, parseMapping_body (L := GoStd.lib) "garbage" ∅
         = Ret (Err (InvalidMappingEntry q)))
   ↔ length (Split (GoStd.TrimSpace "garbage") "=") = 1%nat)
  ∧ (length (Split (GoStd.TrimSpace "garbage") "=") = 1%nat →
     parseMapping (L := GoStd.lib) "garbage"
     = Ret (Err (InvalidMappingEntry (GoStd.TrimSpace "garbage")))).
Proof.
  apply (InvalidMappingEntry_iff_no_equals (L := GoStd.lib)
           "garbage" [] [] "garbage" ∅); [done | reflexivity | reflexivity | done].
Defined.

(** C7 as stated fails on an entry with two [=]: it splits into three
    parts on [=], and the parser rejects it with the invalid-IPv4 error for
    the text after the first [=], not with the invalid-mapping-entry
    error. *)
Lemma two_equals_is_not_InvalidMappingEntry :
  length (Split "aa:bb:cc:dd:ee:ff=10.0.0.5=x" "=") = 3%nat
  ∧ parseMapping (L := GoStd.lib) "aa:bb:cc:dd:ee:ff=10.0.0.5=x"
    = Ret (Err (InvalidIPv4Address "10.0.0.5=x"))
  ∧ ∀ q, parseMapping (L := GoStd.lib) "aa:bb:cc:dd:ee:ff=10.0.0.5=x"
         ≠ Ret (Err (InvalidMappingEntry q)).
Proof.
  assert (parseMapping (L := GoStd.lib) "aa:bb:cc:dd:ee:ff=10.0.0.5=x"
          = Ret (Err (InvalidIPv4Address "10.0.0.5=x"))) as H
    by (vm_compute; reflexivity).
  split; [reflexivity|]. split; [done|]. intros q. by rewrite H.
Qed.

(** C8. [net.ParseMAC] reads the 8-byte address aa:bb:cc:dd:ee:ff:00:11,
    and [parseMapping] accepts the entry: it keeps the first six bytes as
    the key and returns a table, with no error. *)
Theorem eight_byte_mac_is_accepted :
  GoStd.ParseMAC "aa:bb:cc:dd:ee:ff:00:11"
  = Some [xaa; xbb; xcc; xdd; xee; xff; x00; x11]
  ∧ parseMapping (L := GoStd.lib) "aa:bb:cc:dd:ee:ff:00:11=10.0.0.5"
    = Ret (Ok {[ [xaa; xbb; xcc; xdd; xee; xff] := [x0a; x00; x00; x05] ]}).
Proof. split; reflexivity. Qed.


(** ** The server loop *)

Lemma parseIncomingRarp_ok_inv (b : list byte) (eth : EthHdr) (pkt : RarpPacket) :
  parseIncomingRarp b = Ret (eth, pkt, None) →
  (42 ≤ length b)%nat ∧ eth = eth_of b ∧ pkt = pkt_of b.
Proof.
  intros Hok. destruct (decide (length b < 42)%nat) as [Hshort|Hlong].
  - by rewrite parseIncomingRarp_short in Hok.
  - rewrite parseIncomingRarp_long in Hok by lia.
    case_decide; [done|]. injection Hok as <- <-. split; [lia | done].
Qed.

Lemma length_THA_pkt_of (b : list byte) :
  (42 ≤ length b)%nat → length (THA (pkt_of b)) = 6%nat.
Proof. intros H. simpl. rewrite length_take, length_drop. lia. Qed.

Lemma sent_log_if_verbose (srv : server) (l : logline) :
  sent (log_if_verbose srv l) = [] ∧ lookups (log_if_verbose srv l) = [].
Proof. unfold log_if_verbose. by destruct (verbose srv). Qed.

Section LoopFacts.

Variable Sendto : list byte → option error.
Variable srv : server.

(** A frame the decoder rejects is skipped. *)
Lemma main_frame_rejected (frame : list byte) eth pkt e :
  parseIncomingRarp frame = Ret (eth, pkt, Some e) →
  main_frame Sendto srv frame = Ret (log_if_verbose srv (LogSkipFrame e)).
Proof. intros H. unfold main_frame. by rewrite H. Qed.

(** The opcode test of the loop: the decoded opcode is compared with
    [htons(RARP_REQUEST)], which is 0x0300; any other value is ignored. *)
Lemma main_frame_other_opcode (frame : list byte) eth pkt :
  parseIncomingRarp frame = Ret (eth, pkt, None) →
  Oper pkt ≠ htons RARP_REQUEST →
  main_frame Sendto srv frame
  = Ret (log_if_verbose srv (LogIgnoreOpcode (Oper pkt))).
Proof.
  intros H Hop. unfold main_frame. rewrite H. cbn [mbind run_bind].
  by rewrite decide_True.
Qed.

Lemma main_frame_unmapped (frame : list byte) eth pkt :
  parseIncomingRarp frame = Ret (eth, pkt, None) →
  Oper pkt = htons RARP_REQUEST →
  macToIP srv !! THA pkt = None →
  main_frame Sendto srv frame
  = Ret (EvLookup (THA pkt) :: log_if_verbose srv (LogNoMapping (THA pkt))).
Proof.
  intros H Hop Hmap. unfold main_frame. rewrite H. cbn [mbind run_bind].
  rewrite decide_False by (intros Hne; by apply Hne). by rewrite Hmap.
Qed.

(** A frame that passes the opcode test, from a client of the table: the
    map is read once and one frame is handed to [unix.Sendto], the reply
    [buildRarpReply] makes from the server's addresses, the client's
    address and the address the table gives. *)
Lemma main_frame_mapped (frame : list byte) eth pkt (ip4 : list byte) :
  parseIncomingRarp frame = Ret (eth, pkt, None) →
  Oper pkt = htons RARP_REQUEST →
  macToIP srv !! THA pkt = Some ip4 →
  length (HardwareAddr srv) = 6%nat → length (serverIP srv) = 4%nat →
  length ip4 = 4%nat →
  ∃ logs,
    main_frame Sendto srv frame
    = Ret (EvLookup (THA pkt)
           :: EvSendto (reply_bytes (HardwareAddr srv) (serverIP srv)
                                    (THA pkt) ip4)
           :: logs)
    ∧ sent logs = [] ∧ lookups logs = [].
Proof.
  intros H Hop Hmap Hmac Hip Hip4.
  destruct (parseIncomingRarp_ok_inv _ _ _ H) as (Hlen & _ & ->).
  unfold main_frame. rewrite H. cbn [mbind run_bind].
  rewrite decide_False by (intros Hne; by apply Hne). rewrite Hmap.
  rewrite buildRarpReply_bytes by auto using length_THA_pkt_of.
  cbn [mbind run_bind].
  destruct (Sendto _) as [e|]; eexists; (split; [reflexivity|]);
    [done | apply sent_log_if_verbose].
Qed.

(** C6. For every frame that decodes, whatever its opcode, if the table
    has no entry for the target hardware address of the frame then the turn
    of the loop returns without handing any frame to [unix.Sendto]. *)
Theorem unmapped_requester_gets_no_frame (frame : list byte) eth pkt :
  parseIncomingRarp frame = Ret (eth, pkt, None) →
  macToIP srv !! THA pkt = None →
  ∃ evs, main_frame Sendto srv frame = Ret evs ∧ sent evs = [].
Proof.
  intros H Hmap.
  destruct (decide (Oper pkt = htons RARP_REQUEST)) as [Hop|Hop].
  - rewrite (main_frame_unmapped frame eth pkt) by done.
    eexists. split; [done|]. apply (sent_log_if_verbose srv).
  - rewrite (main_frame_other_opcode frame eth pkt) by done.
    eexists. split; [done|]. apply sent_log_if_verbose.
Qed.

(** A frame that decodes with opcode 3, REQUEST, fails the opcode test,
    since 3 is not [htons(RARP_REQUEST)]: the loop ignores it. *)
Lemma main_frame_ignores_REQUEST (frame : list byte) eth pkt :
  parseIncomingRarp frame = Ret (eth, pkt, None) →
  Oper pkt = RARP_REQUEST →
  main_frame Sendto srv frame
  = Ret (log_if_verbose srv (LogIgnoreOpcode RARP_REQUEST)).
Proof.
  intros H Hop. rewrite (main_frame_other_opcode frame eth pkt); [|done|].
  - by rewrite Hop.
  - rewrite Hop. discriminate.
Qed.

(** A failed read ends the loop, whatever would have been read next. *)
Lemma main_loop_read_error (e : error) (reads : list (list byte + error)) :
  main_loop Sendto srv (inr e :: reads) = Ret ([EvLog (LogFatalRead e)], true).
Proof. reflexivity. Qed.

End LoopFacts.

(** A frame that passes the decoder and the opcode test, from a client the
    table does not hold. *)
Lemma unmapped_requester_gets_no_frame_ex :
  ∃ evs,
    main_frame Sendto_ok ex_server (ex_frame x35 x80 x03 x00 ex_otherMAC)
    = Ret evs ∧ sent evs = [].
Proof.
  apply (unmapped_requester_gets_no_frame Sendto_ok ex_server
           (ex_frame x35 x80 x03 x00 ex_otherMAC)
           (eth_of (ex_frame x35 x80 x03 x00 ex_otherMAC))
           (pkt_of (ex_frame x35 x80 x03 x00 ex_otherMAC)));
    vm_compute; reflexivity.
Defined.

(** C4. A frame that decodes and whose opcode field holds 0x0300 (768) in
    network byte order, not REQUEST (3), is not discarded: the loop reads
    the table at the target hardware address of the frame and hands a reply
    to [unix.Sendto]. *)
Theorem opcode_0300_is_looked_up_and_answered :
  parseIncomingRarp ex_swapped_request
  = Ret (eth_of ex_swapped_request, pkt_of ex_swapped_request, None)
  ∧ take 2 (drop 20 ex_swapped_request) = [x03; x00]
  ∧ Oper (pkt_of ex_swapped_request) = 768
  ∧ Oper (pkt_of ex_swapped_request) ≠ RARP_REQUEST
  ∧ main_frame Sendto_ok ex_server ex_swapped_request
    = Ret [EvLookup ex_clientMAC;
           EvSendto (reply_bytes ex_serverMAC ex_serverIP
                                 ex_clientMAC ex_clientIP)].
Proof. repeat split; try discriminate; vm_compute; reflexivity. Qed.

(** C5. A frame that decodes as a RARP REQUEST (its opcode is 3) from the
    client the table maps to 192.168.1.10 gets no reply: the loop ignores
    the opcode, reads no table entry and hands no frame to [unix.Sendto]. *)
Theorem decoded_request_of_mapped_client_gets_no_reply :
  parseIncomingRarp ex_decoded_request
  = Ret (eth_of ex_decoded_request, pkt_of ex_decoded_request, None)
  ∧ Oper (pkt_of ex_decoded_request) = RARP_REQUEST
  ∧ macToIP ex_server !! THA (pkt_of ex_decoded_request) = Some ex_clientIP
  ∧ main_frame Sendto_ok ex_server ex_decoded_request = Ret []
  ∧ main_frame Sendto_ok
      (mkServer true ex_serverMAC ex_serverIP ex_table) ex_decoded_request
    = Ret [EvLog (LogIgnoreOpcode 3)].
Proof. repeat split; vm_compute; reflexivity. Qed.

(** ** No panic

    The [Panic] results of the embedding are out of reach of the program:
    the decoder returns on every frame, the parser returns on every text
    when [ParseMAC] answers six bytes or more, as Go's does, and the turn of
    the loop returns when the server's addresses have six and four bytes and
    the table comes from the parser. *)

Lemma parseIncomingRarp_returns (b : list byte) :
  ∃ r, parseIncomingRarp b = Ret r.
Proof.
  destruct (decide (length b < 42)%nat).
  - rewrite parseIncomingRarp_short by done. eauto.
  - rewrite parseIncomingRarp_long by lia. eauto.
Qed.

Section MappingReturns.

Context {L : GoLib}.
Hypothesis ParseMAC_length :
  ∀ s mac, ParseMAC s = Some mac → (6 ≤ length mac)%nat.

Lemma parseMapping_body_returns (p : string) (m : table) :
  table_wf m →
  ∃ r, parseMapping_body p m = Ret r
       ∧ ∀ m', r = Ok m' → table_wf m'.
Proof.
  intros Hwf. destruct (decide (TrimSpace p = EmptyString)) as [Hp|Hp].
  - rewrite parseMapping_body_blank by done. eexists. split; [done|].
    by intros m' [= <-].
  - destruct (cut (TrimSpace p) "=") as [[kv0 kv1]|] eqn:Hcut.
    + rewrite (parseMapping_body_cut p kv0 kv1) by done.
      destruct (ParseMAC _) as [mac|] eqn:Hmac; [|by eexists].
      destruct (To4 _) as [ip|] eqn:Hip; [|by eexists].
      rewrite decide_True by eauto. eexists. split; [done|].
      intros m' [= <-] k v.
      destruct (decide (take 6 mac = k)) as [<-|Hne].
      * rewrite lookup_insert_eq. intros [= <-].
        rewrite length_take. apply ParseMAC_length in Hmac.
        apply To4_length in Hip. lia.
      * rewrite lookup_insert_ne by done. apply Hwf.
    + rewrite parseMapping_body_no_equals by done. by eexists.
Qed.

Lemma parseMapping_loop_returns (pairs : list string) (m : table) :
  table_wf m →
  ∃ r, parseMapping_loop pairs m = Ret r
       ∧ ∀ m', r = Ok m' → table_wf m'.
Proof.
  revert m. induction pairs as [|p pairs IH]; intros m Hwf; simpl.
  - eexists. split; [done|]. by intros m' [= <-].
  - destruct (parseMapping_body_returns p m Hwf) as ([m1|e] & -> & Hwf1);
      cbn [mbind run_bind]; [by apply IH, Hwf1 | by eexists].
Qed.

(** X14. When [ParseMAC] answers six bytes or more for every text it
    accepts, as Go's does, [parseMapping] returns on every text: no slice of
    a MAC is out of range. *)
Lemma parseMapping_returns (s : string) :
  ∃ r, parseMapping s = Ret r ∧ ∀ m, r = Ok m → table_wf m.
Proof.
  assert (table_wf ∅) as Hempty by (by intros k v; rewrite lookup_empty).
  unfold parseMapping. case_decide.
  - eexists. split; [done|]. by intros m [= <-].
  - by apply parseMapping_loop_returns.
Qed.

End MappingReturns.

Lemma mac_groups_length (n : nat) (s : string) (e : ascii) (hw : list byte) :
  GoStd.mac_groups n s e = Some hw → length hw = n.
Proof.
  revert s hw. induction n as [|n IH]; intros s hw.
  - by intros [= <-].
  - cbn [GoStd.mac_groups].
    destruct (GoStd.xtoi2 s e); [|done].
    destruct (GoStd.mac_groups n (GoStd.sdrop 3 s) e) as [tl|] eqn:Htl; [|done].
    intros [= <-]. cbn [length]. f_equal. by eapply IH.
Qed.

Lemma mac_quads_length (n : nat) (s : string) (e : ascii) (hw : list byte) :
  GoStd.mac_quads n s e = Some hw → length hw = (2 * n)%nat.
Proof.
  revert s hw. induction n as [|n IH]; intros s hw.
  - by intros [= <-].
  - cbn [GoStd.mac_quads].
    destruct (GoStd.xtoi2 (substring 0 2 s) zero); [|done].
    destruct (GoStd.xtoi2 (GoStd.sdrop 2 s) e); [|done].
    destruct (GoStd.mac_quads n (GoStd.sdrop 5 s) e) as [tl|] eqn:Htl; [|done].
    intros [= <-]. cbn [length]. rewrite (IH _ _ Htl). lia.
Qed.

(** [net.ParseMAC] answers 6, 8 or 20 bytes. *)
Lemma GoStd_ParseMAC_length (s : string) (hw : list byte) :
  GoStd.ParseMAC s = Some hw →
  length hw = 6%nat ∨ length hw = 8%nat ∨ length hw = 20%nat.
Proof.
  unfold GoStd.ParseMAC. case_decide; [done|].
  destruct (get 2 s) as [s2|]; [|done]. destruct (get 4 s) as [s4|]; [|done].
  repeat case_decide; try done.
  - intros Hg%mac_groups_length. lia.
  - intros Hq%mac_quads_length. rewrite Hq.
    set (n := (2 * (String.length s + 1) / 5)%nat) in *.
    assert (n = 6 ∨ n = 8 ∨ n = 20)%nat as Hn by lia.
    destruct Hn as [Hn|[Hn|Hn]]; rewrite Hn; auto.
Qed.

(** X20. With a server whose hardware address has six bytes and whose IP
    has four, and a table of 6-byte keys and 4-byte values, a turn of the
    loop returns on every frame: neither the decoder nor [buildRarpReply]
    panics. *)
Lemma main_frame_returns (Sendto : list byte → option error) (srv : server)
    (frame : list byte) :
  length (HardwareAddr srv) = 6%nat → length (serverIP srv) = 4%nat →
  table_wf (macToIP srv) →
  ∃ evs, main_frame Sendto srv frame = Ret evs.
Proof.
  intros Hmac Hip Hwf.
  destruct (parseIncomingRarp_returns frame) as ([[eth pkt] [e|]] & Hparse).
  - rewrite (main_frame_rejected _ _ _ eth pkt e) by done. eauto.
  - destruct (decide (Oper pkt = htons RARP_REQUEST)) as [Hop|Hop].
    + destruct (macToIP srv !! THA pkt) as [ip4|] eqn:Hmap.
      * destruct (main_frame_mapped Sendto srv frame eth pkt ip4)
          as (logs & -> & _); eauto. by eapply Hwf.
      * rewrite (main_frame_unmapped _ _ _ eth pkt) by done. eauto.
    + rewrite (main_frame_other_opcode _ _ _ eth pkt) by done. eauto.
Qed.

(** ** More on the codec *)

Lemma lor_shift_add (hi lo : Z) :
  0 ≤ lo < 256 → 0 ≤ hi → Z.lor lo (Z.shiftl hi 8) = hi * 256 + lo.
Proof.
  intros Hlo Hhi.
  rewrite Z.shiftl_mul_pow2 by lia. rewrite Z.lor_comm.
  assert (Z.land (hi * 2 ^ 8) lo = 0) as Hland.
  { apply Z.bits_inj'. intros n Hn. rewrite Z.land_spec, Z.bits_0.
    destruct (decide (n < 8)) as [Hlt|Hge].
    - rewrite Z.mul_pow2_bits_low by lia. reflexivity.
    - assert (Z.testbit lo n = false) as ->; [|apply andb_false_r].
      destruct (decide (lo = 0)) as [->|Hnz]; [apply Z.bits_0|].
      apply Z.bits_above_log2; [lia|].
      apply Z.log2_lt_pow2; [lia|].
      apply Z.lt_le_trans with (2 ^ 8); [change (2 ^ 8) with 256; lia|].
      apply Z.pow_le_mono_r; lia. }
  rewrite <- (Z.lxor_lor _ _ Hland), <- (Z.add_nocarry_lxor _ _ Hland).
  reflexivity.
Qed.

(** [htons] exchanges the two bytes of a 16-bit word. *)
Lemma htons_value (i : Z) :
  0 ≤ i < 65536 → htons i = i mod 256 * 256 + i / 256.
Proof.
  intros Hi. unfold htons.
  rewrite Z.shiftl_mul_pow2, Z.shiftr_div_pow2 by lia.
  change (2 ^ 16) with (2 ^ 8 * 2 ^ 8).
  rewrite Z.mul_mod_distr_r by lia.
  change 0xff00 with (Z.shiftl (Z.ones 8) 8).
  rewrite <- (Z.shiftl_mul_pow2 (i mod 2 ^ 8)) by lia.
  rewrite <- Z.shiftl_land, Z.land_ones by lia.
  rewrite Z.mod_mod by lia.
  rewrite Z.lor_comm. change (2 ^ 8) with 256.
  apply lor_shift_add.
  - split; [apply Z.div_pos; lia | apply Z.div_lt_upper_bound; lia].
  - apply Z.mod_pos_bound. lia.
Qed.

(** X1. On a 16-bit word [htons] is its own inverse, and its value is again
    a 16-bit word. *)
Theorem htons_involutive (i : Z) :
  0 ≤ i < 65536 → htons (htons i) = i ∧ 0 ≤ htons i < 65536.
Proof.
  intros Hi.
  assert (0 ≤ htons i < 65536) as Hj.
  { rewrite htons_value by done.
    pose proof (Z.mod_pos_bound i 256). pose proof (Z.div_pos i 256).
    assert (i / 256 < 256) by (apply Z.div_lt_upper_bound; lia). lia. }
  split; [|done].
  rewrite (htons_value (htons i)) by done. rewrite htons_value by done.
  assert (i / 256 < 256) by (apply Z.div_lt_upper_bound; lia).
  pose proof (Z.div_pos i 256). pose proof (Z.mod_pos_bound i 256).
  pose proof (Z.div_mod i 256).
  set (a := i mod 256) in *. set (b := i / 256) in *.
  assert ((a * 256 + b) mod 256 = b) as ->
    by (rewrite Z.add_comm, Z.mod_add by lia; apply Z.mod_small; lia).
  assert ((a * 256 + b) / 256 = a) as ->
    by (rewrite Z.add_comm, Z.div_add by lia; rewrite Z.div_small by lia; lia).
  lia.
Qed.

(** The opcode of a request, exchanged and exchanged back. *)
Lemma htons_involutive_ex :
  htons (htons RARP_REQUEST) = RARP_REQUEST ∧ 0 ≤ htons RARP_REQUEST < 65536.
Proof. apply (htons_involutive RARP_REQUEST). done. Defined.

(** X2. [parseIncomingRarp] returns on every frame, without a panic. It
    answers the too-short error exactly for the frames of fewer than 42
    bytes; the error carries the length, and the header and the packet
    that come with it are the zero values. *)
Theorem parseIncomingRarp_too_short_iff (b : list byte) :
  (∃ r, parseIncomingRarp b = Ret r)
  ∧ ((∃ eth pkt n, parseIncomingRarp b = Ret (eth, pkt, Some (FrameTooShort n)))
     ↔ (length b < 42)%nat)
  ∧ ((length b < 42)%nat →
     parseIncomingRarp b
     = Ret (EthHdr_zero, RarpPacket_zero, Some (FrameTooShort (length b)))).
Proof.
  destruct (decide (length b < 42)%nat) as [Hshort|Hlong].
  - rewrite parseIncomingRarp_short by done. repeat split; eauto.
  - rewrite parseIncomingRarp_long by lia. repeat split; eauto; try lia.
    intros (eth & pkt & n & Hr). by case_decide.
Qed.

Lemma word_at_app (b t : list byte) (off : nat) :
  (off + 2 ≤ length b)%nat → word_at (b ++ t) off = word_at b off.
Proof. intros H. unfold word_at. by rewrite !app_nth1 by lia. Qed.

(** X3. The bytes after the 42nd are ignored: a frame of 42 bytes or more
    decodes the same with anything appended to it. *)
Theorem parseIncomingRarp_ignores_trailer (b t : list byte) :
  (42 ≤ length b)%nat → parseIncomingRarp (b ++ t) = parseIncomingRarp b.
Proof.
  intros H. rewrite !parseIncomingRarp_long by (rewrite ?length_app; lia).
  unfold eth_of, pkt_of.
  rewrite !word_at_app by lia. rewrite !app_nth1 by lia.
  rewrite !drop_app_le by lia.
  rewrite !take_app_le by (rewrite ?length_drop; lia).
  reflexivity.
Qed.

(** A request followed by the padding of a minimal Ethernet frame. *)
Lemma parseIncomingRarp_ignores_trailer_ex :
  parseIncomingRarp (ex_swapped_request ++ replicate 18 x00)
  = parseIncomingRarp ex_swapped_request.
Proof.
  apply (parseIncomingRarp_ignores_trailer ex_swapped_request).
  vm_compute. lia.
Defined.

(** X4. What a successful decoding returns: a header whose type is the
    value the decoder compares with, two MAC addresses of six bytes, and in
    the packet two hardware addresses of six bytes, two protocol addresses
    of four bytes and three words below 2^16. *)
Theorem parseIncomingRarp_decoded_shape (b : list byte) eth pkt :
  parseIncomingRarp b = Ret (eth, pkt, None) →
  Type_ eth = htons ETH_P_RARP
  ∧ length (Dst eth) = 6%nat ∧ length (Src eth) = 6%nat
  ∧ length (SHA pkt) = 6%nat ∧ length (SPA pkt) = 4%nat
  ∧ length (THA pkt) = 6%nat ∧ length (TPA pkt) = 4%nat
  ∧ 0 ≤ HType pkt < 65536 ∧ 0 ≤ PType pkt < 65536 ∧ 0 ≤ Oper pkt < 65536.
Proof.
  intros Hok.
  destruct (decide (length b < 42)%nat) as [Hshort|Hlong];
    [by rewrite parseIncomingRarp_short in Hok|].
  rewrite parseIncomingRarp_long in Hok by lia.
  case_decide as Hty; [done|].
  injection Hok as <- <-. cbn [Type_ Dst Src SHA SPA THA TPA HType PType Oper eth_of pkt_of].
  assert (∀ off, 0 ≤ word_at b off < 65536) as Hword.
  { intros off. unfold word_at. rewrite word_value.
    pose proof (u8_bound (nth off b x00)).
    pose proof (u8_bound (nth (S off) b x00)). lia. }
  rewrite !length_take, !length_drop.
  repeat split; try apply Hword; try done; lia.
Qed.

Lemma parseIncomingRarp_decoded_shape_ex :
  Type_ (eth_of ex_swapped_request) = htons ETH_P_RARP
  ∧ length (Dst (eth_of ex_swapped_request)) = 6%nat
  ∧ length (Src (eth_of ex_swapped_request)) = 6%nat
  ∧ length (SHA (pkt_of ex_swapped_request)) = 6%nat
  ∧ length (SPA (pkt_of ex_swapped_request)) = 4%nat
  ∧ length (THA (pkt_of ex_swapped_request)) = 6%nat
  ∧ length (TPA (pkt_of ex_swapped_request)) = 4%nat
  ∧ 0 ≤ HType (pkt_of ex_swapped_request) < 65536
  ∧ 0 ≤ PType (pkt_of ex_swapped_request) < 65536
  ∧ 0 ≤ Oper (pkt_of ex_swapped_request) < 65536.
Proof.
  apply (parseIncomingRarp_decoded_shape ex_swapped_request). reflexivity.
Defined.

(** [buildRarpReply] reads the first six bytes of each MAC and the IPv4
    form [To4] gives of each IP. *)
Lemma buildRarpReply_general
    (serverMAC serverIP targetMAC targetIP sip tip : list byte) :
  (6 ≤ length serverMAC)%nat → (6 ≤ length targetMAC)%nat →
  To4 serverIP = Some sip → To4 targetIP = Some tip →
  buildRarpReply serverMAC serverIP targetMAC targetIP
  = Ret (reply_bytes (take 6 serverMAC) sip (take 6 targetMAC) tip, None).
Proof.
  intros Hsm Htm Hsi Hti.
  pose proof (To4_length _ _ Hsi) as Hsip.
  pose proof (To4_length _ _ Hti) as Htip.
  rewrite <- (buildRarpReply_bytes (take 6 serverMAC) sip (take 6 targetMAC) tip)
    by (rewrite ?length_take; lia).
  unfold buildRarpReply, macToArray, ipToArray, slice_opt.
  rewrite Hsi, Hti. cbn [default].
  assert (To4 sip = Some sip) as -> by (unfold To4; by rewrite decide_True).
  assert (To4 tip = Some tip) as -> by (unfold To4; by rewrite decide_True).
  cbn [default].
  rewrite !(slice_ok serverMAC 0 6), !(slice_ok targetMAC 0 6) by lia.
  rewrite !(slice_ok (take 6 serverMAC) 0 6),
    !(slice_ok (take 6 targetMAC) 0 6) by (rewrite ?length_take; lia).
  rewrite !drop_0. simpl Nat.sub. rewrite !take_take. simpl Nat.min.
  reflexivity.
Qed.

Lemma buildRarpReply_panics
    (serverMAC serverIP targetMAC targetIP : list byte) :
  ¬ ((6 ≤ length serverMAC)%nat ∧ (6 ≤ length targetMAC)%nat
     ∧ is_Some (To4 serverIP) ∧ is_Some (To4 targetIP)) →
  buildRarpReply serverMAC serverIP targetMAC targetIP = Panic SliceBounds.
Proof.
  intros Hnot. unfold buildRarpReply.
  destruct (decide (6 ≤ length targetMAC)%nat) as [Htm|Htm];
    [|rewrite (slice_short targetMAC 0 6) by lia; reflexivity].
  destruct (decide (6 ≤ length serverMAC)%nat) as [Hsm|Hsm];
    [|rewrite (slice_ok targetMAC 0 6), (slice_short serverMAC 0 6) by lia;
      reflexivity].
  unfold macToArray, ipToArray, slice_opt.
  rewrite !(slice_ok targetMAC 0 6), !(slice_ok serverMAC 0 6) by lia.
  cbn [mbind run_bind].
  destruct (To4 serverIP) as [sip|] eqn:Hsi; [|reflexivity].
  cbn [default from_option id].
  rewrite (slice_all sip 4) by (by eapply To4_length).
  cbn [mbind run_bind].
  destruct (To4 targetIP) as [tip|] eqn:Hti; [|reflexivity].
  exfalso. apply Hnot. eauto.
Qed.


(** X6. Of a MAC longer than six bytes [buildRarpReply] uses the first six,
    and of an IP [To4] accepts it uses the four bytes [To4] gives: the frame
    is the one built from those. *)
Theorem buildRarpReply_uses_prefix_and_To4
    (serverMAC serverIP targetMAC targetIP sip tip : list byte) :
  (6 ≤ length serverMAC)%nat → (6 ≤ length targetMAC)%nat →
  To4 serverIP = Some sip → To4 targetIP = Some tip →
  buildRarpReply serverMAC serverIP targetMAC targetIP
  = buildRarpReply (take 6 serverMAC) sip (take 6 targetMAC) tip.
Proof.
  intros Hsm Htm Hsi Hti.
  rewrite (buildRarpReply_general serverMAC serverIP targetMAC targetIP sip tip)
    by done.
  symmetry. apply buildRarpReply_bytes;
    rewrite ?length_take; eauto using To4_length; lia.
Qed.

(** An 8-byte server MAC and a 16-byte IPv4-mapped server IP. *)
Lemma buildRarpReply_uses_prefix_and_To4_ex :
  buildRarpReply (ex_serverMAC ++ [x00; x11])
                 (replicate 10 x00 ++ [xff; xff] ++ ex_serverIP)
                 ex_clientMAC ex_clientIP
  = buildRarpReply (take 6 (ex_serverMAC ++ [x00; x11])) ex_serverIP
                   (take 6 ex_clientMAC) ex_clientIP.
Proof.
  apply (buildRarpReply_uses_prefix_and_To4
           (ex_serverMAC ++ [x00; x11])
           (replicate 10 x00 ++ [xff; xff] ++ ex_serverIP)
           ex_clientMAC ex_clientIP ex_serverIP ex_clientIP);
    (vm_compute; lia) || reflexivity.
Defined.

(** ** More on the mapping table *)

Section MappingMore.

Context {L : GoLib}.

(** Where [parseMapping] stands when it reaches an entry. *)
Lemma parseMapping_reaches
    (s : string) (pre post : list string) (p : string) (m1 : table) :
  s ≠ EmptyString → Split s "," = pre ++ p :: post →
  parseMapping_loop pre ∅ = Ret (Ok m1) →
  parseMapping s
  = (r ← parseMapping_body p m1;
     match r with
     | Ok m' => parseMapping_loop post m'
     | Err e => Ret (Err e)
     end).
Proof.
  intros Hs Hsplit Hpre. unfold parseMapping. rewrite decide_False by done.
  by rewrite Hsplit, parseMapping_loop_app, Hpre.
Qed.

(** X7. Entries that are empty once trimmed are skipped: the loop gives the
    same result with them removed, and a run of nothing but such entries
    leaves the table as it was, with no error. *)
Theorem parseMapping_loop_skips_blank (pairs : list string) (m : table) :
  parseMapping_loop (filter (λ p, TrimSpace p ≠ EmptyString) pairs) m
  = parseMapping_loop pairs m
  ∧ ((∀ p, p ∈ pairs → TrimSpace p = EmptyString) →
     parseMapping_loop pairs m = Ret (Ok m)).
Proof.
  split.
  - revert m. induction pairs as [|p pairs IH]; intros m; [done|].
    rewrite filter_cons. case_decide as Hp.
    + simpl. destruct (parseMapping_body p m) as [[m'|e]|pn]; simpl; auto.
    + simpl. rewrite parseMapping_body_blank by done. apply IH.
  - revert m. induction pairs as [|p pairs IH]; intros m Hblank; [done|].
    simpl. rewrite parseMapping_body_blank by (apply Hblank; set_solver).
    apply IH. intros q Hq. apply Hblank. set_solver.
Qed.

(** X8. The first entry the body of the loop rejects decides the result:
    [parseMapping] returns that entry's error, whatever the entries after
    it are. *)
Theorem parseMapping_first_error
    (s : string) (pre post : list string) (p : string) (m1 : table) (e : error) :
  s ≠ EmptyString → Split s "," = pre ++ p :: post →
  parseMapping_loop pre ∅ = Ret (Ok m1) →
  parseMapping_body p m1 = Ret (Err e) →
  parseMapping s = Ret (Err e).
Proof.
  intros Hs Hsplit Hpre Hp.
  rewrite (parseMapping_reaches s pre post p m1) by done. by rewrite Hp.
Qed.

Lemma parseMapping_body_keeps_wf (p : string) (m m' : table) :
  table_wf m → parseMapping_body p m = Ret (Ok m') → table_wf m'.
Proof.
  intros Hwf. destruct (decide (TrimSpace p = EmptyString)) as [Hp|Hp].
  - rewrite parseMapping_body_blank by done. by intros [= <-].
  - destruct (cut (TrimSpace p) "=") as [[kv0 kv1]|] eqn:Hcut.
    + rewrite (parseMapping_body_cut p kv0 kv1) by done.
      destruct (ParseMAC _) as [mac|] eqn:Hmac; [|done].
      destruct (To4 _) as [ip|] eqn:Hip; [|done].
      case_decide as Hlen; [|done]. intros [= <-] k v.
      destruct (decide (take 6 mac = k)) as [<-|Hne].
      * rewrite lookup_insert_eq. intros [= <-].
        rewrite length_take. apply To4_length in Hip. lia.
      * rewrite lookup_insert_ne by done. apply Hwf.
    + by rewrite parseMapping_body_no_equals.
Qed.

Lemma parseMapping_loop_keeps_wf (pairs : list string) (m m' : table) :
  table_wf m → parseMapping_loop pairs m = Ret (Ok m') → table_wf m'.
Proof.
  revert m. induction pairs as [|p pairs IH]; intros m Hwf; simpl.
  - by intros [= <-].
  - destruct (parseMapping_body p m) as [[m1|e]|pn] eqn:Hp; simpl; [|done..].
    apply IH. by eapply parseMapping_body_keeps_wf.
Qed.

(** X9. Every table [parseMapping] returns has keys of six bytes and values
    of four bytes, whatever the library functions answer. *)
Theorem parseMapping_table_wf (s : string) (m : table) :
  parseMapping s = Ret (Ok m) → table_wf m.
Proof.
  assert (table_wf ∅) as Hempty by (by intros k v; rewrite lookup_empty).
  unfold parseMapping. case_decide.
  - by intros [= <-].
  - by apply parseMapping_loop_keeps_wf.
Qed.

(** X10. The table holds nothing the text does not give: when every entry
    is accepted and none binds [mac], the table [parseMapping] returns has
    no entry for [mac]. *)
Theorem parseMapping_unbound_absent (s : string) (mac : list byte) :
  s ≠ EmptyString →
  (∀ q, q ∈ Split s "," →
        ∃ t, parseMapping_body q ∅ = Ret (Ok t) ∧ t !! mac = None) →
  ∃ m, parseMapping s = Ret (Ok m) ∧ m !! mac = None.
Proof.
  intros Hs Hall. unfold parseMapping. rewrite decide_False by done.
  destruct (parseMapping_loop_valid (Split s ",") ∅) as (m & Hm & Hkeep).
  { intros q Hq. destruct (Hall q Hq) as (t & Ht & _). eauto. }
  exists m. split; [done|]. rewrite Hkeep; [apply lookup_empty|].
  intros q t Hq Ht. destruct (Hall q Hq) as (t' & Ht' & Hnone). congruence.
Qed.

(** X11. An entry whose MAC text [ParseMAC] rejects fails with the
    parse-MAC error, which names the trimmed MAC text; the IP text is not
    looked at. *)
Theorem parseMapping_bad_mac
    (s : string) (pre post : list string) (p kv0 kv1 : string) (m1 : table) :
  s ≠ EmptyString → Split s "," = pre ++ p :: post →
  parseMapping_loop pre ∅ = Ret (Ok m1) →
  TrimSpace p ≠ EmptyString → cut (TrimSpace p) "=" = Some (kv0, kv1) →
  ParseMAC (TrimSpace kv0) = None →
  parseMapping s = Ret (Err (InvalidMacAddress (TrimSpace kv0))).
Proof.
  intros Hs Hsplit Hpre Hp Hcut Hmac.
  rewrite (parseMapping_reaches s pre post p m1) by done.
  by rewrite (parseMapping_body_cut p kv0 kv1), Hmac.
Qed.

(** X12. An entry whose MAC text is accepted and whose IP text is no IPv4
    address for [ParseIP] and [To4] fails with the parse-IPv4 error, which
    names the trimmed IP text; this holds whatever the length of the MAC. *)
Theorem parseMapping_bad_ip
    (s : string) (pre post : list string) (p kv0 kv1 : string) (m1 : table)
    (mac : list byte) :
  s ≠ EmptyString → Split s "," = pre ++ p :: post →
  parseMapping_loop pre ∅ = Ret (Ok m1) →
  TrimSpace p ≠ EmptyString → cut (TrimSpace p) "=" = Some (kv0, kv1) →
  ParseMAC (TrimSpace kv0) = Some mac →
  To4 (ParseIP (TrimSpace kv1)) = None →
  parseMapping s = Ret (Err (InvalidIPv4Address (TrimSpace kv1))).
Proof.
  intros Hs Hsplit Hpre Hp Hcut Hmac Hip.
  rewrite (parseMapping_reaches s pre post p m1) by done.
  by rewrite (parseMapping_body_cut p kv0 kv1), Hmac, Hip.
Qed.

(** X13. The last entry of a text, when [ParseMAC] answers six bytes or
    more for its MAC text and [To4] accepts what [ParseIP] answers for its
    IP text: the table is the one of the entries before it with the first
    six bytes of the MAC bound to the four bytes of the IP. *)
Theorem parseMapping_last_entry
    (s : string) (pre : list string) (p kv0 kv1 : string) (m1 : table)
    (mac ip : list byte) :
  s ≠ EmptyString → Split s "," = pre ++ [p] →
  parseMapping_loop pre ∅ = Ret (Ok m1) →
  TrimSpace p ≠ EmptyString → cut (TrimSpace p) "=" = Some (kv0, kv1) →
  ParseMAC (TrimSpace kv0) = Some mac → (6 ≤ length mac)%nat →
  To4 (ParseIP (TrimSpace kv1)) = Some ip →
  parseMapping s = Ret (Ok (<[take 6 mac := ip]> m1)).
Proof.
  intros Hs Hsplit Hpre Hp Hcut Hmac Hlen Hip.
  rewrite (parseMapping_reaches s pre [] p m1) by done.
  rewrite (parseMapping_body_cut p kv0 kv1), Hmac, Hip by done.
  by rewrite decide_True.
Qed.

End MappingMore.

(** A valid entry, then one with no [=], then a valid one. *)
Lemma parseMapping_first_error_ex :
  parseMapping (L := GoStd.lib)
    "aa:bb:cc:dd:ee:ff=10.0.0.5,garbage,52:54:00:12:34:56=10.0.0.7"
  = Ret (Err (InvalidMappingEntry "garbage")).
Proof.
  apply (parseMapping_first_error (L := GoStd.lib)
           "aa:bb:cc:dd:ee:ff=10.0.0.5,garbage,52:54:00:12:34:56=10.0.0.7"
           ["aa:bb:cc:dd:ee:ff=10.0.0.5"] ["52:54:00:12:34:56=10.0.0.7"]
           "garbage" {[ ex_clientMAC := [x0a; x00; x00; x05] ]});
    done || reflexivity.
Defined.

Lemma parseMapping_table_wf_ex :
  table_wf {[ ex_clientMAC := [x0a; x00; x00; x05] ]}.
Proof.
  apply (parseMapping_table_wf (L := GoStd.lib) "aa:bb:cc:dd:ee:ff=10.0.0.5").
  reflexivity.
Defined.

Lemma parseMapping_unbound_absent_ex :
  ∃ m, parseMapping (L := GoStd.lib) "aa:bb:cc:dd:ee:ff=10.0.0.5" = Ret (Ok m)
       ∧ m !! ex_otherMAC = None.
Proof.
  apply (parseMapping_unbound_absent (L := GoStd.lib)
           "aa:bb:cc:dd:ee:ff=10.0.0.5" ex_otherMAC); [done|].
  intros q Hq. apply list_elem_of_singleton in Hq as ->.
  exists {[ ex_clientMAC := [x0a; x00; x00; x05] ]}. split; [reflexivity|].
  apply lookup_singleton_ne. discriminate.
Defined.

Lemma parseMapping_bad_mac_ex :
  parseMapping (L := GoStd.lib) "aa:bb:cc:dd:ee=10.0.0.5"
  = Ret (Err (InvalidMacAddress "aa:bb:cc:dd:ee")).
Proof.
  apply (parseMapping_bad_mac (L := GoStd.lib) "aa:bb:cc:dd:ee=10.0.0.5"
           [] [] "aa:bb:cc:dd:ee=10.0.0.5" "aa:bb:cc:dd:ee" "10.0.0.5" ∅);
    done || reflexivity.
Defined.

Lemma parseMapping_bad_ip_ex :
  parseMapping (L := GoStd.lib) "aa:bb:cc:dd:ee:ff=10.0.0.256"
  = Ret (Err (InvalidIPv4Address "10.0.0.256")).
Proof.
  apply (parseMapping_bad_ip (L := GoStd.lib) "aa:bb:cc:dd:ee:ff=10.0.0.256"
           [] [] "aa:bb:cc:dd:ee:ff=10.0.0.256" "aa:bb:cc:dd:ee:ff"
           "10.0.0.256" ∅ ex_clientMAC);
    done || reflexivity.
Defined.

(** Two entries, the second with a MAC of eight bytes. *)
Lemma parseMapping_last_entry_ex :
  parseMapping (L := GoStd.lib)
    "52:54:00:12:34:56=10.0.0.7,aa:bb:cc:dd:ee:ff:00:11=10.0.0.5"
  = Ret (Ok (<[take 6 [xaa; xbb; xcc; xdd; xee; xff; x00; x11]
               := [x0a; x00; x00; x05]]>
               {[ ex_otherMAC := [x0a; x00; x00; x07] ]})).
Proof.
  apply (parseMapping_last_entry (L := GoStd.lib)
           "52:54:00:12:34:56=10.0.0.7,aa:bb:cc:dd:ee:ff:00:11=10.0.0.5"
           ["52:54:00:12:34:56=10.0.0.7"]
           "aa:bb:cc:dd:ee:ff:00:11=10.0.0.5"
           "aa:bb:cc:dd:ee:ff:00:11" "10.0.0.5");
    try done; try reflexivity.
  vm_compute. lia.
Defined.

(** Go's [ParseMAC] on a text with an entry of each kind. *)
Lemma parseMapping_returns_ex :
  ∃ r, parseMapping (L := GoStd.lib)
         "aa:bb:cc:dd:ee:ff=10.0.0.5, ,aabb.ccdd.eeff.0011=10.0.0.6" = Ret r
       ∧ ∀ m, r = Ok m → table_wf m.
Proof.
  apply (parseMapping_returns (L := GoStd.lib)).
  intros t mac Hmac. apply GoStd_ParseMAC_length in Hmac. lia.
Defined.

(** ** More on the server loop *)

Lemma buildRarpReply_result
    (serverMAC serverIP targetMAC targetIP buf : list byte) (err : option error) :
  buildRarpReply serverMAC serverIP targetMAC targetIP = Ret (buf, err) →
  err = None ∧ length buf = 42%nat
  ∧ take 6 buf = take 6 targetMAC ∧ (6 ≤ length targetMAC)%nat.
Proof.
  destruct (decide ((6 ≤ length serverMAC)%nat ∧ (6 ≤ length targetMAC)%nat
                    ∧ is_Some (To4 serverIP) ∧ is_Some (To4 targetIP)))
    as [(Hsm & Htm & [sip Hsi] & [tip Hti])|Hnot].
  - rewrite (buildRarpReply_general _ _ _ _ sip tip) by done.
    intros [= <- <-]. split; [done|]. split; [|split; [|done]].
    + apply length_reply_bytes;
        rewrite ?length_take; eauto using To4_length; lia.
    + unfold reply_bytes. rewrite take_app_le by (rewrite length_take; lia).
      rewrite take_take. by simpl.
  - by rewrite buildRarpReply_panics.
Qed.

(** The three ways a turn of the loop can go. *)
Lemma main_frame_inv (Sendto : list byte → option error) (srv : server)
    (frame : list byte) (evs : list event) :
  main_frame Sendto srv frame = Ret evs →
  (¬ ((42 ≤ length frame)%nat ∧ word_at frame 12 = htons ETH_P_RARP
      ∧ word_at frame 20 = htons RARP_REQUEST)
   ∧ lookups evs = [] ∧ sent evs = [])
  ∨ ((42 ≤ length frame)%nat ∧ word_at frame 12 = htons ETH_P_RARP
     ∧ word_at frame 20 = htons RARP_REQUEST
     ∧ lookups evs = [take 6 (drop 32 frame)]
     ∧ (macToIP srv !! take 6 (drop 32 frame) = None ∧ sent evs = []
        ∨ ∃ ip4 reply,
            macToIP srv !! take 6 (drop 32 frame) = Some ip4
            ∧ buildRarpReply (HardwareAddr srv) (serverIP srv)
                             (take 6 (drop 32 frame)) ip4 = Ret (reply, None)
            ∧ sent evs = [reply])).
Proof.
  intros Hrun.
  destruct (decide (length frame < 42)%nat) as [Hshort|Hlong].
  { rewrite (main_frame_rejected _ _ _ _ _ _ (parseIncomingRarp_short _ Hshort))
      in Hrun.
    injection Hrun as <-. left. split; [lia|]. split; apply sent_log_if_verbose. }
  assert (42 ≤ length frame)%nat as Hlen by lia.
  pose proof (parseIncomingRarp_long frame Hlen) as Hparse.
  destruct (decide (word_at frame 12 ≠ htons ETH_P_RARP)) as [Hty|Hty].
  { rewrite (main_frame_rejected _ _ _ _ _ _ Hparse) in Hrun.
    injection Hrun as <-. left. split; [tauto|]. split; apply sent_log_if_verbose. }
  apply dec_stable in Hty.
  destruct (decide (Oper (pkt_of frame) = htons RARP_REQUEST)) as [Hop|Hop].
  2:{ rewrite (main_frame_other_opcode _ _ _ _ _ Hparse) in Hrun by done.
      injection Hrun as <-. left. split; [tauto|]. split; apply sent_log_if_verbose. }
  right. split; [done|]. split; [done|]. split; [done|].
  unfold main_frame in Hrun. rewrite Hparse in Hrun. cbn [mbind run_bind] in Hrun.
  rewrite decide_False in Hrun by (intros Hne; by apply Hne).
  change (THA (pkt_of frame)) with (take 6 (drop 32 frame)) in Hrun.
  destruct (macToIP srv !! take 6 (drop 32 frame)) as [ip4|] eqn:Hmap.
  - destruct (buildRarpReply _ _ _ ip4) as [[reply err]|pn] eqn:Hbuild;
      [|done]. cbn [mbind run_bind] in Hrun.
    destruct (buildRarpReply_result _ _ _ _ _ _ Hbuild) as (-> & _).
    destruct (Sendto reply) as [e|]; injection Hrun as <-.
    + split; [done|]. right. by exists ip4, reply.
    + split.
      * simpl. f_equal. apply (sent_log_if_verbose srv).
      * right. exists ip4, reply. split; [done|]. split; [done|].
        simpl. f_equal. apply (sent_log_if_verbose srv).
  - injection Hrun as <-. split.
    + simpl. f_equal. apply (sent_log_if_verbose srv).
    + left. split; [done|]. apply (sent_log_if_verbose srv).
Qed.

Section LoopMore.

Variable Sendto : list byte → option error.
Variable srv : server.

(** X15. One turn of the loop reads the table at most once, only at the
    target hardware address of the frame (its bytes 32 to 37), and hands at
    most one frame to [unix.Sendto], never without having read the table. *)
Theorem main_frame_at_most_one (frame : list byte) (evs : list event) :
  main_frame Sendto srv frame = Ret evs →
  (length (lookups evs) ≤ 1)%nat ∧ (length (sent evs) ≤ 1)%nat
  ∧ (∀ k, k ∈ lookups evs → k = take 6 (drop 32 frame))
  ∧ (sent evs ≠ [] → lookups evs ≠ []).
Proof.
  intros Hrun.
  destruct (main_frame_inv _ _ _ _ Hrun)
    as [(_ & -> & ->)|(_ & _ & _ & -> & [[_ ->]|(ip4 & reply & _ & _ & ->)])];
    simpl; repeat split; try lia; try done;
    intros k Hk;
    first [by apply elem_of_nil in Hk | by apply list_elem_of_singleton in Hk].
Qed.

(** X16. Whatever frame a turn of the loop hands to [unix.Sendto] answers
    the frame it read: that frame has 42 bytes or more, passes the
    ethertype and the opcode test, the table maps its target hardware
    address to an address [ip4], and the frame sent is the one
    [buildRarpReply] makes of the server's two addresses, that hardware
    address and [ip4]. It has 42 bytes and its first six, the destination,
    are the target hardware address of the frame read. *)
Theorem main_frame_sends_only_replies
    (frame : list byte) (evs : list event) (f : list byte) :
  main_frame Sendto srv frame = Ret evs → f ∈ sent evs →
  (42 ≤ length frame)%nat ∧ word_at frame 12 = htons ETH_P_RARP
  ∧ word_at frame 20 = htons RARP_REQUEST
  ∧ (∃ ip4, macToIP srv !! take 6 (drop 32 frame) = Some ip4
            ∧ buildRarpReply (HardwareAddr srv) (serverIP srv)
                             (take 6 (drop 32 frame)) ip4 = Ret (f, None))
  ∧ length f = 42%nat ∧ take 6 f = take 6 (drop 32 frame).
Proof.
  intros Hrun Hf.
  destruct (main_frame_inv _ _ _ _ Hrun)
    as [(_ & _ & Hs)|(Hlen & Hty & Hop & _ & [[_ Hs]|(ip4 & reply & Hmap & Hb & Hs)])];
    rewrite Hs in Hf; try by apply elem_of_nil in Hf.
  apply list_elem_of_singleton in Hf as ->.
  destruct (buildRarpReply_result _ _ _ _ _ _ Hb) as (_ & H42 & Hdst & _).
  rewrite take_take in Hdst. repeat split; eauto.
Qed.

(** X17. What a turn reads and sends depends neither on what
    [unix.Sendto] answers nor on the verbose flag: with another [Sendto] and
    another flag the turn reads the table at the same key and hands the
    same frame to [unix.Sendto]. *)
Theorem main_frame_sends_regardless
    (Sendto' : list byte → option error) (verbose' : bool)
    (frame : list byte) (evs evs' : list event) :
  main_frame Sendto srv frame = Ret evs →
  main_frame Sendto'
    (mkServer verbose' (HardwareAddr srv) (serverIP srv) (macToIP srv)) frame
  = Ret evs' →
  lookups evs = lookups evs' ∧ sent evs = sent evs'.
Proof.
  intros Hrun Hrun'.
  apply main_frame_inv in Hrun. apply main_frame_inv in Hrun'.
  cbn [HardwareAddr serverIP macToIP] in Hrun'.
  destruct Hrun as [(Hno & Hl & Hs)|(Hlen & Hty & Hop & Hl & Hcase)];
    destruct Hrun' as [(Hno' & Hl' & Hs')|(Hlen' & Hty' & Hop' & Hl' & Hcase')];
    try tauto; rewrite Hl, Hl'.
  - by rewrite Hs, Hs'.
  - split; [done|].
    destruct Hcase as [[Hm ->]|(ip4 & reply & Hm & Hb & ->)];
      destruct Hcase' as [[Hm' ->]|(ip4' & reply' & Hm' & Hb' & ->)];
      congruence.
Qed.

End LoopMore.

Lemma sent_app (evs evs' : list event) : sent (evs ++ evs') = sent evs ++ sent evs'.
Proof. apply omap_app. Qed.

Section LoopRuns.

Variable Sendto : list byte → option error.
Variable srv : server.

(** X18. The loop over two runs of reads, one after the other: the turns
    of the first run, then, unless a failed read ended the process there,
    the turns of the second; the events follow in that order. A failed
    read in the first run leaves the second unread. *)
Theorem main_loop_app (reads1 reads2 : list (list byte + error)) :
  main_loop Sendto srv (reads1 ++ reads2)
  = ('(evs1, fatal) ← main_loop Sendto srv reads1;
     if (fatal : bool) then Ret (evs1, true)
     else '(evs2, fatal2) ← main_loop Sendto srv reads2;
          Ret (evs1 ++ evs2, fatal2)).
Proof.
  induction reads1 as [|[frame|e] reads1 IH]; simpl.
  - by destruct (main_loop Sendto srv reads2) as [[evs2 fatal2]|pn].
  - rewrite IH.
    destruct (main_frame Sendto srv frame) as [evs|pn]; [|done].
    cbn [mbind run_bind].
    destruct (main_loop Sendto srv reads1) as [[evs1 [|]]|pn]; [done| |done].
    cbn [mbind run_bind].
    destruct (main_loop Sendto srv reads2) as [[evs2 fatal2]|pn]; [|done].
    cbn [mbind run_bind]. by rewrite app_assoc.
  - done.
Qed.

(** X19. The loop hands [unix.Sendto] no more frames than it read, and it
    ends only on a failed read: when every read gives a frame, the process
    is still running after the last turn, whatever [unix.Sendto]
    answered. *)
Theorem main_loop_sends_at_most_one_per_read
    (reads : list (list byte + error)) (evs : list event) (fatal : bool) :
  main_loop Sendto srv reads = Ret (evs, fatal) →
  (length (sent evs) ≤ length reads)%nat
  ∧ ((∀ e, inr e ∉ reads) → fatal = false).
Proof.
  revert evs fatal. induction reads as [|[frame|e] reads IH];
    intros evs fatal; simpl.
  - intros [= <- <-]. by split.
  - destruct (main_frame Sendto srv frame) as [evs1|pn] eqn:H1; [|done].
    cbn [mbind run_bind].
    destruct (main_loop Sendto srv reads) as [[evs2 fatal2]|pn]; [|done].
    cbn [mbind run_bind]. intros [= <- <-].
    destruct (IH evs2 fatal2 eq_refl) as [Hle Hfatal].
    assert (length (sent evs1) ≤ 1)%nat.
    { destruct (main_frame_inv _ _ _ _ H1)
        as [(_ & _ & ->)|(_ & _ & _ & _ & [[_ ->]|(? & ? & _ & _ & ->)])];
        simpl; lia. }
    rewrite sent_app, length_app. split; [lia|].
    intros Hno. apply Hfatal. intros e He. apply (Hno e), elem_of_cons.
    by right.
  - intros [= <- <-]. split; [simpl; lia|].
    intros Hno. exfalso. apply (Hno e), elem_of_cons. by left.
Qed.

End LoopRuns.

(** The turn that answers the example request. *)
Lemma main_frame_at_most_one_ex :
  (length (lookups [EvLookup ex_clientMAC;
                    EvSendto (reply_bytes ex_serverMAC ex_serverIP
                                          ex_clientMAC ex_clientIP)]) ≤ 1)%nat
  ∧ (length (sent [EvLookup ex_clientMAC;
                   EvSendto (reply_bytes ex_serverMAC ex_serverIP
                                         ex_clientMAC ex_clientIP)]) ≤ 1)%nat
  ∧ (∀ k, k ∈ lookups [EvLookup ex_clientMAC;
                       EvSendto (reply_bytes ex_serverMAC ex_serverIP
                                             ex_clientMAC ex_clientIP)] →
          k = take 6 (drop 32 ex_swapped_request))
  ∧ (sent [EvLookup ex_clientMAC;
           EvSendto (reply_bytes ex_serverMAC ex_serverIP
                                 ex_clientMAC ex_clientIP)] ≠ [] →
     lookups [EvLookup ex_clientMAC;
              EvSendto (reply_bytes ex_serverMAC ex_serverIP
                                    ex_clientMAC ex_clientIP)] ≠ []).
Proof.
  apply (main_frame_at_most_one Sendto_ok ex_server ex_swapped_request).
  reflexivity.
Defined.

Lemma main_frame_sends_only_replies_ex :
  (42 ≤ length ex_swapped_request)%nat
  ∧ word_at ex_swapped_request 12 = htons ETH_P_RARP
  ∧ word_at ex_swapped_request 20 = htons RARP_REQUEST
  ∧ (∃ ip4, macToIP ex_server !! take 6 (drop 32 ex_swapped_request) = Some ip4
            ∧ buildRarpReply (HardwareAddr ex_server) (serverIP ex_server)
                             (take 6 (drop 32 ex_swapped_request)) ip4
              = Ret (reply_bytes ex_serverMAC ex_serverIP
                                 ex_clientMAC ex_clientIP, None))
  ∧ length (reply_bytes ex_serverMAC ex_serverIP ex_clientMAC ex_clientIP)
    = 42%nat
  ∧ take 6 (reply_bytes ex_serverMAC ex_serverIP ex_clientMAC ex_clientIP)
    = take 6 (drop 32 ex_swapped_request).
Proof.
  apply (main_frame_sends_only_replies Sendto_ok ex_server ex_swapped_request
           [EvLookup ex_clientMAC;
            EvSendto (reply_bytes ex_serverMAC ex_serverIP
                                  ex_clientMAC ex_clientIP)]).
  - reflexivity.
  - vm_compute. constructor.
Defined.

(** The same turn with a [unix.Sendto] that fails and the verbose flag
    set: the failure is logged, after the same lookup and the same frame. *)
Lemma main_frame_sends_regardless_ex :
  lookups [EvLookup ex_clientMAC;
           EvSendto (reply_bytes ex_serverMAC ex_serverIP
                                 ex_clientMAC ex_clientIP)]
  = lookups [EvLookup ex_clientMAC;
             EvSendto (reply_bytes ex_serverMAC ex_serverIP
                                   ex_clientMAC ex_clientIP);
             EvLog (LogSendto (Errno 100))]
  ∧ sent [EvLookup ex_clientMAC;
          EvSendto (reply_bytes ex_serverMAC ex_serverIP
                                ex_clientMAC ex_clientIP)]
    = sent [EvLookup ex_clientMAC;
            EvSendto (reply_bytes ex_serverMAC ex_serverIP
                                  ex_clientMAC ex_clientIP);
            EvLog (LogSendto (Errno 100))].
Proof.
  apply (main_frame_sends_regardless Sendto_ok ex_server
           (λ _, Some (Errno 100)) true ex_swapped_request);
    reflexivity.
Defined.

(** Two reads: the request that is answered and the request on the wire,
    which is skipped. *)
Lemma main_loop_sends_at_most_one_per_read_ex :
  (length (sent [EvLookup ex_clientMAC;
                 EvSendto (reply_bytes ex_serverMAC ex_serverIP
                                       ex_clientMAC ex_clientIP)])
   ≤ length [(inl ex_swapped_request : list byte + error);
             inl ex_wire_request])%nat
  ∧ ((∀ e, inr e ∉ [(inl ex_swapped_request : list byte + error);
                    inl ex_wire_request]) →
     false = false).
Proof.
  apply (main_loop_sends_at_most_one_per_read Sendto_ok ex_server).
  reflexivity.
Defined.

Lemma main_frame_returns_ex :
  ∃ evs, main_frame Sendto_ok ex_server ex_swapped_request = Ret evs.
Proof.
  apply (main_frame_returns Sendto_ok ex_server ex_swapped_request);
    [reflexivity | reflexivity |].
  intros mac ip Hm.
  change (macToIP ex_server) with ({[ex_clientMAC := ex_clientIP]} : table) in Hm.
  apply lookup_singleton_Some in Hm as [<- <-]. done.
Defined.

(** ** The interface, its address and the socket *)

Section StartupFacts.

Context {H : Host} {L : GoLib}.

Lemma ifaceByName_Good_inv (name : string) (ifc : net.Interface) :
  ifaceByName name = Good ifc →
  InterfaceByName name = Good ifc
  ∧ Z.land (net.Flags ifc) net.FlagUp ≠ 0
  ∧ length (net.HardwareAddr ifc) = 6%nat.
Proof.
  unfold ifaceByName. destruct (InterfaceByName name) as [ifc'|e]; [|done].
  destruct (decide (Z.land (net.Flags ifc') net.FlagUp = 0)) as [Hd|Hu];
    [done|].
  destruct (decide (length (net.HardwareAddr ifc') ≠ 6%nat)) as [Hn|Hy];
    [done|].
  intros [= <-]. split; [done|]. split; [done|]. by apply dec_stable.
Qed.

Lemma firstIPv4Addr_loop_Good (addrs : list net.Addr) (ip4 : list byte) :
  firstIPv4Addr_loop addrs = Good ip4
  ↔ ∃ pre ip mask post,
      addrs = pre ++ net.IPNet ip mask :: post ∧ To4 ip = Some ip4
      ∧ ∀ ip' mask', net.IPNet ip' mask' ∈ pre → To4 ip' = None.
Proof.
  split.
  - induction addrs as [|[ip mask|ip] addrs IH]; simpl; [done| |].
    + destruct (To4 ip) as [ip4'|] eqn:Hip.
      * intros [= <-]. exists [], ip, mask, addrs. split; [done|].
        split; [done|]. intros ip' mask' Hin. by apply elem_of_nil in Hin.
      * intros (pre & ip0 & mask0 & post & -> & Hip0 & Hpre)%IH.
        exists (net.IPNet ip mask :: pre), ip0, mask0, post.
        split; [done|]. split; [done|]. intros ip' mask' Hin.
        apply elem_of_cons in Hin as [[= -> ->]|Hin]; eauto.
    + intros (pre & ip0 & mask0 & post & -> & Hip0 & Hpre)%IH.
      exists (net.IPAddr ip :: pre), ip0, mask0, post.
      split; [done|]. split; [done|]. intros ip' mask' Hin.
      apply elem_of_cons in Hin as [[=]|Hin]; eauto.
  - intros (pre & ip & mask & post & -> & Hip & Hpre).
    induction pre as [|[ip' mask'|ip'] pre IH]; simpl.
    + by rewrite Hip.
    + rewrite (Hpre ip' mask') by (apply elem_of_cons; by left). apply IH.
      intros ip'' mask'' Hin. apply (Hpre ip'' mask''), elem_of_cons. by right.
    + apply IH. intros ip'' mask'' Hin.
      apply (Hpre ip'' mask''), elem_of_cons. by right.
Qed.

Lemma firstIPv4Addr_loop_Bad (addrs : list net.Addr) (e : start_error) :
  firstIPv4Addr_loop addrs = Bad e
  ↔ e = ErrNoIPv4 ∧ ∀ ip mask, net.IPNet ip mask ∈ addrs → To4 ip = None.
Proof.
  induction addrs as [|[ip mask|ip] addrs IH]; simpl.
  - split; [intros [= <-]|intros [-> _]]; [|done].
    split; [done|]. intros ip mask Hin. by apply elem_of_nil in Hin.
  - destruct (To4 ip) as [ip4|] eqn:Hip.
    + split; [done|]. intros [_ Hall]. rewrite (Hall ip mask) in Hip; [done|].
      apply elem_of_cons. by left.
    + rewrite IH. split; intros [-> Hall]; (split; [done|]).
      * intros ip' mask' Hin. apply elem_of_cons in Hin as [[= -> ->]|Hin]; eauto.
      * intros ip' mask' Hin. apply (Hall ip' mask'), elem_of_cons. by right.
  - rewrite IH. split; intros [-> Hall]; (split; [done|]).
    + intros ip' mask' Hin. apply elem_of_cons in Hin as [[=]|Hin]; eauto.
    + intros ip' mask' Hin. apply (Hall ip' mask'), elem_of_cons. by right.
Qed.

Lemma firstIPv4Addr_length (name : string) (ip4 : list byte) :
  firstIPv4Addr name = Good ip4 → length ip4 = 4%nat.
Proof.
  unfold firstIPv4Addr. destruct (InterfaceByName name) as [ifc|e]; [|done].
  destruct (Addrs ifc) as [addrs|e]; [|done].
  intros (pre & ip & mask & post & _ & Hip & _)%firstIPv4Addr_loop_Good.
  by eapply To4_length.
Qed.

(** X21. For an interface the library knows, with the addresses [addrs]:
    [firstIPv4Addr] returns the four bytes [To4] gives of the first
    [net.IPNet] of [addrs] whose IP is an IPv4 address, the addresses of
    other kinds and the other IPs before it being passed over; it fails
    with the no-IPv4 error exactly when [addrs] has no such entry. *)
Theorem firstIPv4Addr_first
    (name : string) (ifc : net.Interface) (addrs : list net.Addr) :
  InterfaceByName name = Good ifc → Addrs ifc = Good addrs →
  (∀ ip4, firstIPv4Addr name = Good ip4
          ↔ ∃ pre ip mask post,
              addrs = pre ++ net.IPNet ip mask :: post ∧ To4 ip = Some ip4
              ∧ ∀ ip' mask', net.IPNet ip' mask' ∈ pre → To4 ip' = None)
  ∧ (∀ ip4, firstIPv4Addr name = Good ip4 → length ip4 = 4%nat)
  ∧ (∀ e, firstIPv4Addr name = Bad e
          ↔ e = ErrNoIPv4
            ∧ ∀ ip mask, net.IPNet ip mask ∈ addrs → To4 ip = None).
Proof.
  intros Hifc Haddrs. split; [|split].
  - intros ip4. unfold firstIPv4Addr. rewrite Hifc, Haddrs.
    apply firstIPv4Addr_loop_Good.
  - apply firstIPv4Addr_length.
  - intros e. unfold firstIPv4Addr. rewrite Hifc, Haddrs.
    apply firstIPv4Addr_loop_Bad.
Qed.

Lemma parseMapping_Ok_wf (s : string) (m : table) :
  parseMapping s = Ret (Ok m) → table_wf m.
Proof.
  assert (table_wf ∅) as Hempty by (by intros k v; rewrite lookup_empty).
  unfold parseMapping. case_decide.
  - by intros [= <-].
  - by apply parseMapping_loop_keeps_wf.
Qed.

(** X22. When [main] reaches its loop, it holds what the loop needs: a
    hardware address of six bytes, that of the interface named, which is
    up; an IPv4 address of four bytes; the table [parseMapping] made of
    the mapping text, with keys of six bytes and values of four; and the
    descriptor [unix.Socket] answered, bound and not closed. *)
Theorem main_start_Started
    (iface mapping : string) (v : bool) (calls : list syscall)
    (srv : server) (fd : Z) :
  main_start iface mapping v = Ret (calls, Started srv fd) →
  verbose srv = v
  ∧ (∃ ifc, InterfaceByName iface = Good ifc
            ∧ Z.land (net.Flags ifc) net.FlagUp ≠ 0
            ∧ HardwareAddr srv = net.HardwareAddr ifc
            ∧ calls = [SysSocket AF_PACKET SOCK_RAW (htons ETH_P_RARP);
                       SysBind fd (htons ETH_P_RARP) (net.Index ifc)])
  ∧ length (HardwareAddr srv) = 6%nat
  ∧ firstIPv4Addr iface = Good (serverIP srv)
  ∧ length (serverIP srv) = 4%nat
  ∧ parseMapping mapping = Ret (Ok (macToIP srv))
  ∧ table_wf (macToIP srv)
  ∧ Socket AF_PACKET SOCK_RAW (htons ETH_P_RARP) = Good fd.
Proof.
  unfold main_start.
  destruct (ifaceByName iface) as [ifc|e] eqn:Hifc; [|done].
  destruct (firstIPv4Addr iface) as [ip|e] eqn:Hip; [|done].
  destruct (parseMapping mapping) as [[m|e]|pn] eqn:Hmap; [|done..].
  cbn [mbind run_bind].
  destruct (openRawSocket ifc) as [calls' [fd'|e]] eqn:Hopen; [|done].
  intros [= <- <- <-]. cbn [verbose HardwareAddr serverIP macToIP].
  apply ifaceByName_Good_inv in Hifc as (Hlook & Hup & Hlen).
  unfold openRawSocket in Hopen.
  destruct (Socket _ _ _) as [fd0|err] eqn:Hsock; [|by injection Hopen].
  destruct (Bind _ _ _) as [err|]; [by injection Hopen|].
  injection Hopen as <- <-.
  split; [done|]. split; [by exists ifc|]. split; [done|]. split; [done|].
  split; [by eapply firstIPv4Addr_length|]. split; [done|].
  split; [by eapply parseMapping_Ok_wf | done].
Qed.

(** X23. When [main] ends before its loop, no descriptor stays open: an
    error of the interface, of its address or of the mapping text ends the
    process before any call to the kernel, and so does a failed
    [unix.Socket] after that one call; after a failed [unix.Bind] the
    descriptor is closed. *)
Theorem main_start_fatal_closes
    (iface mapping : string) (v : bool) (calls : list syscall) (st : started) :
  main_start iface mapping v = Ret (calls, st) →
  (∀ srv fd, st ≠ Started srv fd) →
  (∀ e, st = FatalMapping e → calls = [])
  ∧ (calls = []
     ∨ (∃ err, st = FatalStart (ErrSocket err)
               ∧ calls = [SysSocket AF_PACKET SOCK_RAW (htons ETH_P_RARP)])
     ∨ (∃ fd err, st = FatalStart (ErrBind err)
                  ∧ Socket AF_PACKET SOCK_RAW (htons ETH_P_RARP) = Good fd
                  ∧ closed_fds calls = [fd])).
Proof.
  unfold main_start. intros Hrun Hfatal.
  destruct (ifaceByName iface) as [ifc|e]; [|injection Hrun as <- <-; eauto].
  destruct (firstIPv4Addr iface) as [ip|e]; [|injection Hrun as <- <-; eauto].
  destruct (parseMapping mapping) as [[m|e]|pn]; [| |done];
    cbn [mbind run_bind] in Hrun; [|injection Hrun as <- <-; eauto].
  destruct (openRawSocket ifc) as [calls' [fd|e]] eqn:Hopen;
    injection Hrun as <- <-; [by destruct (Hfatal _ fd eq_refl)|].
  split; [done|]. unfold openRawSocket in Hopen.
  destruct (Socket _ _ _) as [fd|err] eqn:Hsock.
  - destruct (Bind _ _ _) as [err|]; [|done]. injection Hopen as <- <-.
    right. right. by exists fd, err.
  - injection Hopen as <- <-. right. left. by exists err.
Qed.

End StartupFacts.

(** On the example host the IPv4 address of [eth0] comes after an IPv6
    one, and in its 16-byte form. *)
Lemma firstIPv4Addr_first_ex :
  (∀ ip4, firstIPv4Addr (H := ex_host) "eth0" = Good ip4
          ↔ ∃ pre ip mask post,
              ex_addrs = pre ++ net.IPNet ip mask :: post ∧ To4 ip = Some ip4
              ∧ ∀ ip' mask', net.IPNet ip' mask' ∈ pre → To4 ip' = None)
  ∧ (∀ ip4, firstIPv4Addr (H := ex_host) "eth0" = Good ip4 →
            length ip4 = 4%nat)
  ∧ (∀ e, firstIPv4Addr (H := ex_host) "eth0" = Bad e
          ↔ e = ErrNoIPv4
            ∧ ∀ ip mask, net.IPNet ip mask ∈ ex_addrs → To4 ip = None).
Proof.
  apply (firstIPv4Addr_first (H := ex_host) "eth0" ex_ifc ex_addrs);
    reflexivity.
Defined.

(** The example server, started on the example host. *)
Lemma main_start_Started_ex :
  verbose ex_server = false
  ∧ (∃ ifc, InterfaceByName (Host := ex_host) "eth0" = Good ifc
            ∧ Z.land (net.Flags ifc) net.FlagUp ≠ 0
            ∧ HardwareAddr ex_server = net.HardwareAddr ifc
            ∧ [SysSocket AF_PACKET SOCK_RAW (htons ETH_P_RARP);
               SysBind 3 (htons ETH_P_RARP) 2]
              = [SysSocket AF_PACKET SOCK_RAW (htons ETH_P_RARP);
                 SysBind 3 (htons ETH_P_RARP) (net.Index ifc)])
  ∧ length (HardwareAddr ex_server) = 6%nat
  ∧ firstIPv4Addr (H := ex_host) "eth0" = Good (serverIP ex_server)
  ∧ length (serverIP ex_server) = 4%nat
  ∧ parseMapping (L := GoStd.lib) "aa:bb:cc:dd:ee:ff=192.168.1.10"
    = Ret (Ok (macToIP ex_server))
  ∧ table_wf (macToIP ex_server)
  ∧ Socket (Host := ex_host) AF_PACKET SOCK_RAW (htons ETH_P_RARP) = Good 3.
Proof.
  apply (main_start_Started (H := ex_host) (L := GoStd.lib)
           "eth0" "aa:bb:cc:dd:ee:ff=192.168.1.10" false
           [SysSocket AF_PACKET SOCK_RAW (htons ETH_P_RARP);
            SysBind 3 (htons ETH_P_RARP) 2]
           ex_server 3).
  reflexivity.
Defined.

(** A mapping text with no [=] ends the start before any call. *)
Lemma main_start_fatal_closes_ex :
  (∀ e, FatalMapping (InvalidMappingEntry "garbage") = FatalMapping e →
        ([] : list syscall) = [])
  ∧ (([] : list syscall) = []
     ∨ (∃ err, FatalMapping (InvalidMappingEntry "garbage")
               = FatalStart (ErrSocket err)
               ∧ [] = [SysSocket AF_PACKET SOCK_RAW (htons ETH_P_RARP)])
     ∨ (∃ fd err, FatalMapping (InvalidMappingEntry "garbage")
                  = FatalStart (ErrBind err)
                  ∧ Socket (Host := ex_host) AF_PACKET SOCK_RAW
                           (htons ETH_P_RARP) = Good fd
                  ∧ closed_fds [] = [fd])).
Proof.
  apply (main_start_fatal_closes (H := ex_host) (L := GoStd.lib)
           "eth0" "garbage" false); [reflexivity | done].
Defined.
